(** * Feed components of the web client: pagination, optimistic likes,
      active-slide tracking and teardown guards.

    Shallow embedding of the React client components

    - [ReelsPaged]        : src/unnamed/part_000, first module (the reels feed
                            with cursor pagination and optimistic likes);
    - [NotificationsPage] : src/unnamed/part_000, second module;
    - [ReelsClient]       : src/apps/web/app/reels/ReelsClient.tsx;
    - [FeedClient]        : src/unnamed/part_001.

    [ReelsRun] puts the paginated feed in its environment: the events its
    rendered view offers and the requests it has in flight.

    A component is a record of its [useState] cells.  A handler is a
    computation in the monad [M], which threads the component state, records
    every call made to a state setter, to the fetch wrapper and to the router,
    and carries JavaScript exceptions.  An [async] handler is cut at its
    [await]: the part that runs synchronously up to the request is one
    computation ([*_start]) and the continuation that runs once the request
    has settled is another ([*_resume]), which receives the settled outcome.

    Numbers: counters are integers ([Z]); [offsetTop] is an integer by the DOM
    interface ([Z]); [scrollTop] may be fractional and is a rational ([Q]). *)

From Stdlib Require Import ZArith QArith Qabs Qround Lia Lqa Bool List String.
From Stdlib Require Import DecimalString.
Import ListNotations.

Local Open Scope string_scope.
Local Open Scope Z_scope.

(* ===================================================================== *)
(** ** JavaScript values and the handler monad                            *)
(* ===================================================================== *)

Module Js.

(** [a ?? b] on a value that is [null]/[undefined] ([None]) or present. *)
Definition nullish {A} (a : option A) (b : A) : A :=
  match a with Some x => x | None => b end.

(** Truthiness of a string: only the empty string is falsy. *)
Definition truthy_string (s : string) : bool :=
  match s with EmptyString => false | String _ _ => true end.

(** Truthiness of [string | null | undefined]. *)
Definition truthy_ostring (s : option string) : bool :=
  match s with Some x => truthy_string x | None => false end.

(** Truthiness of [boolean | undefined]. *)
Definition truthy_obool (b : option bool) : bool :=
  match b with Some x => x | None => false end.

(** [s || d] on [string | null | undefined]. *)
Definition or_string (s : option string) (d : string) : string :=
  match s with
  | Some x => if truthy_string x then x else d
  | None => d
  end.

(** Template literal interpolation of a non-negative integer. *)
Definition decimal (n : nat) : string :=
  NilZero.string_of_uint (Nat.to_uint n).

(** What a handler can call besides reading its state. *)
Inductive Call :=
| SetState (cell : string)                 (* a [useState] setter *)
| Fetch (method : string) (path : string) (query : list (string * string))
| Push (path : string).                    (* [router.push] *)

(** A thrown value, seen through [e?.message]. *)
Record JsError := Error { message : option string }.

Section Monad.
Context {S : Type}.

Record World := { state : S; calls : list Call }.

Definition M (A : Type) := World -> (JsError + A) * World.

Definition ret {A} (a : A) : M A := fun w => (inr a, w).

Definition bind {A B} (m : M A) (k : A -> M B) : M B :=
  fun w =>
    match m w with
    | (inl e, w') => (inl e, w')
    | (inr a, w') => k a w'
    end.

Definition throw {A} (e : JsError) : M A := fun w => (inl e, w).

Definition get : M S := fun w => (inr (state w), w).

(** A setter call: the update is applied to the state current at the call
    and the call is recorded. *)
Definition set (cell : string) (f : S -> S) : M unit :=
  fun w => (inr tt, {| state := f (state w);
                       calls := calls w ++ [SetState cell] |}).

Definition emit (c : Call) : M unit :=
  fun w => (inr tt, {| state := state w; calls := calls w ++ [c] |}).

(** [try { body } catch (e) { handler e } finally { final }]. *)
Definition try_catch_finally {A}
           (body : M A) (handler : JsError -> M A) (final : M unit) : M A :=
  fun w =>
    let (r, w1) := match body w with
                   | (inl e, w') => handler e w'
                   | (inr a, w') => (inr a, w')
                   end in
    match final w1 with
    | (inl e, w2) => (inl e, w2)
    | (inr _, w2) => (r, w2)
    end.

(** [try { body } catch { handler }]. *)
Definition try_catch {A} (body : M A) (handler : JsError -> M A) : M A :=
  try_catch_finally body handler (ret tt).

(** Run a handler from a state, with an empty record of calls. *)
Definition run {A} (m : M A) (s : S) : (JsError + A) * World :=
  m {| state := s; calls := [] |}.

Definition state_after {A} (m : M A) (s : S) : S := state (snd (run m s)).
Definition calls_of {A} (m : M A) (s : S) : list Call := calls (snd (run m s)).
End Monad.

Arguments World : clear implicits.
Arguments M : clear implicits.

Definition is_fetch (c : Call) : bool :=
  match c with Fetch _ _ _ => true | _ => false end.

Definition is_set (c : Call) : bool :=
  match c with SetState _ => true | _ => false end.

Definition is_set_cell (cell : string) (c : Call) : bool :=
  match c with SetState x => String.eqb x cell | _ => false end.

Definition is_push (c : Call) : bool :=
  match c with Push _ => true | _ => false end.

(** The requests, the setter calls and the navigations among some calls. *)
Definition fetches (l : list Call) : list Call := filter is_fetch l.
Definition updates (l : list Call) : list Call := filter is_set l.
Definition pushes (l : list Call) : list Call := filter is_push l.

(** A settled promise, as [await] sees it. *)
Inductive Settled (A : Type) :=
| Resolved (value : A)
| Rejected (e : JsError).
Arguments Resolved {A} value.
Arguments Rejected {A} e.

(** [await p]: the value, or the rejection thrown at the [await]. *)
Definition await {S A} (p : Settled A) : M S A :=
  match p with
  | Resolved a => ret a
  | Rejected e => throw e
  end.

(** A fetch [Response], as far as the handlers look at it: [res.ok],
    [res.status], and the promises [res.text()] and [res.json()]. *)
Record Response (D : Type) := {
  ok : bool;
  status : nat;
  text : Settled string;
  json : Settled D
}.
Arguments ok {D} _.
Arguments status {D} _.
Arguments text {D} _.
Arguments json {D} _.

End Js.

Import Js.

Declare Scope js_scope.
Delimit Scope js_scope with js.
Notation "x <- m ;; k" := (bind m (fun x => k))
  (at level 61, m at next level, right associativity) : js_scope.
Notation "m ;; k" := (bind m (fun _ => k))
  (at level 61, right associativity) : js_scope.
Local Open Scope js_scope.

(* ===================================================================== *)
(** ** The paginated reels feed (src/unnamed/part_000, [ReelsClient])     *)
(* ===================================================================== *)

Module ReelsPaged.

Record Media := { m_id : string; kind : string; url : string;
                  width : option Z; height : option Z }.

Record Author := { a_id : string; username : string;
                   displayName : option string; avatarUrl : option string }.

Record Reel := {
  id : string;
  createdAt : option string;
  caption : option string;
  media : list Media;
  author : Author;
  likesCount : option Z;
  commentsCount : option Z;
  viewerHasLiked : option bool
}.

(** The [useState] cells of the component. *)
Record State := {
  items : list Reel;
  loading : bool;
  cursor : option string;
  hasMore : bool;
  err : option string;
  activeIndex : nat
}.

Definition initial_state : State :=
  {| items := []; loading := true; cursor := None; hasMore := true;
     err := None; activeIndex := 0%nat |}.

(** What [useMe] and the derived [authed] give the handlers. *)
Record Session := { authed : bool; meLoading : bool }.

(** *** Setters *)

Definition setItems (f : list Reel -> list Reel) : M State unit :=
  set "items" (fun s =>
    {| items := f (items s); loading := loading s; cursor := cursor s;
       hasMore := hasMore s; err := err s; activeIndex := activeIndex s |}).

Definition setLoading (b : bool) : M State unit :=
  set "loading" (fun s =>
    {| items := items s; loading := b; cursor := cursor s;
       hasMore := hasMore s; err := err s; activeIndex := activeIndex s |}).

Definition setCursor (c : option string) : M State unit :=
  set "cursor" (fun s =>
    {| items := items s; loading := loading s; cursor := c;
       hasMore := hasMore s; err := err s; activeIndex := activeIndex s |}).

Definition setHasMore (b : bool) : M State unit :=
  set "hasMore" (fun s =>
    {| items := items s; loading := loading s; cursor := cursor s;
       hasMore := b; err := err s; activeIndex := activeIndex s |}).

Definition setErr (e : option string) : M State unit :=
  set "err" (fun s =>
    {| items := items s; loading := loading s; cursor := cursor s;
       hasMore := hasMore s; err := e; activeIndex := activeIndex s |}).

Definition setActiveIndex (i : nat) : M State unit :=
  set "activeIndex" (fun s =>
    {| items := items s; loading := loading s; cursor := cursor s;
       hasMore := hasMore s; err := err s; activeIndex := i |}).

(** *** The like toggle *)

(** [{ ...r, viewerHasLiked: !r.viewerHasLiked,
       likesCount: Math.max(0, (r.likesCount ?? 0) + (r.viewerHasLiked ? -1 : 1)) }] *)
Definition toggled (r : Reel) : Reel :=
  {| id := id r; createdAt := createdAt r; caption := caption r;
     media := media r; author := author r;
     likesCount :=
       Some (Z.max 0 (nullish (likesCount r) 0
                      + (if truthy_obool (viewerHasLiked r) then -1 else 1)));
     commentsCount := commentsCount r;
     viewerHasLiked := Some (negb (truthy_obool (viewerHasLiked r))) |}.

(** [prev.map((r) => r.id === reelId ? { ... } : r)] *)
Definition toggleLike (reelId : string) (prev : list Reel) : list Reel :=
  map (fun r => if String.eqb (id r) reelId then toggled r else r) prev.

(** What the like button shows of a reel:
    [r.viewerHasLiked ? "♥" : "♡"] and [r.likesCount ?? 0]. *)
Definition shownLiked (r : Reel) : bool := truthy_obool (viewerHasLiked r).
Definition shownCount (r : Reel) : Z := nullish (likesCount r) 0.

(** The count of a liked reel is at least one, that of another reel at least
    zero: the reels on which the clamp at zero does not bite. *)
Definition like_consistent (r : Reel) : Prop :=
  (if shownLiked r then 1 else 0) <= shownCount r.

Definition count_nonneg (r : Reel) : Prop := 0 <= shownCount r.

(** *** The listing endpoint *)

(** The JSON body of [GET /reels]; every field may be missing. *)
Module Page.
Record t := {
  items : option (list Reel);
  reels : option (list Reel);
  nextCursor : option string;
  hasMore : option bool
}.
End Page.

(** [data?.f] on a body that may itself be [null]. *)
Definition field {A} (data : option Page.t) (f : Page.t -> option A) : option A :=
  match data with Some d => f d | None => None end.

(** [data?.items ?? data?.reels ?? []] *)
Definition nextItems_of (data : option Page.t) : list Reel :=
  nullish (field data Page.items) (nullish (field data Page.reels) []).

(** [data?.nextCursor ?? null] *)
Definition nextCursor_of (data : option Page.t) : option string :=
  field data Page.nextCursor.

(** [Boolean(data?.hasMore ?? nextCursor)] *)
Definition nextHasMore_of (data : option Page.t) : bool :=
  match field data Page.hasMore with
  | Some b => b
  | None => truthy_ostring (nextCursor_of data)
  end.

(** [loadMore(initial)], up to [await apiFetch(...)]: clears the error, raises
    the loading flag on an initial load only, and sends the request, with the
    cursor as query parameter when the load is not initial and the cursor is
    truthy. *)
Definition loadMore_start (initial : bool) : M State unit :=
  setErr None;;
  (if initial then setLoading true else ret tt);;
  s <- get;;
  let qs := if negb initial && truthy_ostring (cursor s)
            then [("cursor", nullish (cursor s) EmptyString)] else [] in
  emit (Fetch "GET" "/reels" qs).

(** [loadMore(initial)], from the settled request on: the rest of the [try]
    block, the [catch] and the [finally]. *)
Definition loadMore_resume (initial : bool)
           (r : Settled (Response (option Page.t))) : M State unit :=
  try_catch_finally
    (res <- await r;;
     (if negb (ok res)
      then t <- await (text res);;
           throw (Error (Some (or_string (Some t) ("HTTP " ++ decimal (status res)))))
      else ret tt);;
     data <- await (json res);;
     let nextItems := nextItems_of data in
     let nextCursor := nextCursor_of data in
     let nextHasMore := nextHasMore_of data in
     setItems (fun prev => if initial then nextItems else (prev ++ nextItems)%list);;
     setCursor nextCursor;;
     setHasMore (nextHasMore && (0 <? Z.of_nat (List.length nextItems))))
    (fun e =>
       setErr (Some (nullish (message e) "Error cargando reels"));;
       setHasMore false)
    (setLoading false).

(** A load whose request settles before anything else happens. *)
Definition loadMore (initial : bool)
           (r : Settled (Response (option Page.t))) : M State unit :=
  loadMore_start initial;; loadMore_resume initial r.

(** What the awaits of the [try] block come to: the parsed body when the
    response is ok and parses, otherwise the error that reaches the [catch]
    (the rejection of the call, the [Error] made from a response that is not
    ok, or the rejection of [res.text()] or [res.json()]). *)
Definition settled_page (r : Settled (Response (option Page.t)))
  : JsError + option Page.t :=
  match r with
  | Rejected e => inl e
  | Resolved res =>
      if negb (ok res)
      then match text res with
           | Resolved t =>
               inl (Error (Some (or_string (Some t)
                                           ("HTTP " ++ decimal (status res)))))
           | Rejected e => inl e
           end
      else match json res with
           | Resolved data => inr data
           | Rejected e => inl e
           end
  end.

(** The rule of the listing interface as the specification words it: the
    explicit [hasMore] when present, otherwise whether [nextCursor] is
    non-null. *)
Definition spec_moreAvailable (data : option Page.t) : bool :=
  match field data Page.hasMore with
  | Some b => b
  | None => match field data Page.nextCursor with
            | Some _ => true
            | None => false
            end
  end.

(** *** The scroll handler *)

(** [dist < bestDist], where [bestDist] starts at [Infinity] ([None]). *)
Definition dist_lt (dist : Q) (bestDist : option Q) : bool :=
  match bestDist with
  | None => true
  | Some b => negb (Qle_bool b dist)
  end.

(** [Math.abs(node.offsetTop - top)] *)
Definition dist_of (top : Q) (offsetTop : Z) : Q := Qabs (inject_Z offsetTop - top).

(** The [children.forEach((node, idx) => ...)] loop from index [idx] on, on
    the pair [(bestIdx, bestDist)]. *)
Fixpoint forEach_best (children : list Z) (idx : nat) (top : Q)
         (best : nat * option Q) : nat * option Q :=
  match children with
  | [] => best
  | node :: rest =>
      let dist := dist_of top node in
      forEach_best rest (S idx) top
                   (if dist_lt dist (snd best) then (idx, Some dist) else best)
  end.

Definition bestIdx_of (children : list Z) (top : Q) : nat :=
  fst (forEach_best children 0 top (0%nat, None)).

(** Nearest-neighbour selection as the specification words it: [i] is the
    index of a child whose distance to [top] is the smallest, and the lowest
    such index. *)
Definition is_nearest (children : list Z) (top : Q) (i : nat) : Prop :=
  exists c,
    nth_error children i = Some c
    /\ (forall j cj, nth_error children j = Some cj ->
                     (dist_of top c <= dist_of top cj)%Q)
    /\ (forall j cj, (j < i)%nat -> nth_error children j = Some cj ->
                     (dist_of top c < dist_of top cj)%Q).

(** [onScroll]: [children] are the [offsetTop] of the rendered [data-reel]
    nodes, [top] is [el.scrollTop].  The handler is re-subscribed whenever
    [hasMore], [loading] or [cursor] changes, so it reads their current
    values. *)
Definition onScroll (children : list Z) (top : Q) : M State unit :=
  match children with
  | [] => ret tt
  | _ :: _ =>
      let bestIdx := bestIdx_of children top in
      setActiveIndex bestIdx;;
      s <- get;;
      if hasMore s && negb (loading s)
         && (Z.of_nat (List.length children) - 2 <=? Z.of_nat bestIdx)
      then loadMore_start false
      else ret tt
  end.

(** A run of scroll events, none of whose requests settles meanwhile. *)
Fixpoint scrolls (events : list (list Z * Q)) : M State unit :=
  match events with
  | [] => ret tt
  | (children, top) :: rest => onScroll children top;; scrolls rest
  end.

(** *** Likes *)

Definition requireAuth (me : Session) : M State bool :=
  if negb (authed me) && negb (meLoading me)
  then emit (Push "/login?next=/reels");; ret true
  else ret false.

(** [onLike(reelId)] up to [await apiFetch(...)]; the result tells whether the
    handler went past [requireAuth]. *)
Definition onLike_start (me : Session) (reelId : string) : M State bool :=
  stop <- requireAuth me;;
  if stop then ret false
  else
    setItems (toggleLike reelId);;
    emit (Fetch "POST" ("/reels/" ++ reelId ++ "/like") []);;
    ret true.

(** [onLike(reelId)] from the settled request on. *)
Definition onLike_resume {D} (reelId : string)
           (r : Settled (Response D)) : M State unit :=
  try_catch
    (res <- await r;;
     if negb (ok res) then setItems (toggleLike reelId) else ret tt)
    (fun _ => setItems (toggleLike reelId)).

(** A like whose request settles before anything else happens. *)
Definition onLike {D} (me : Session) (reelId : string)
           (r : Settled (Response D)) : M State unit :=
  sent <- onLike_start me reelId;;
  if sent then onLike_resume reelId r else ret tt.

(** The request of a like failed: [!res.ok], or the call threw. *)
Definition like_failed {D} (r : Settled (Response D)) : bool :=
  match r with
  | Resolved res => negb (ok res)
  | Rejected _ => true
  end.

(** Clicks on like buttons and settlements of their requests, in any order. *)
Inductive LikeEvent :=
| Click (me : Session) (reelId : string)
| Settle (reelId : string) (r : Settled (Response unit)).

Definition like_event (e : LikeEvent) : M State unit :=
  match e with
  | Click me reelId => _ <- onLike_start me reelId;; ret tt
  | Settle reelId r => onLike_resume reelId r
  end.

Fixpoint like_events (events : list LikeEvent) : M State unit :=
  match events with
  | [] => ret tt
  | e :: rest => like_event e;; like_events rest
  end.

(** *** What is rendered *)

Inductive View :=
| Loading                           (* "Cargando reels…" *)
| ErrorRetry (msg : string)         (* the error with the retry button *)
| Feed (rows : list Reel) (loadingMore : bool) (noMore : bool).

Definition render (s : State) : View :=
  let empty := (List.length (items s) =? 0)%nat in
  if loading s && empty then Loading
  else if truthy_ostring (err s) && empty then ErrorRetry (nullish (err s) EmptyString)
  else Feed (items s) (loading s) (negb (hasMore s) && negb empty).

(** *** The active reel and the prefetch *)

(** [items[activeIndex] ?? null] *)
Definition active (s : State) : option Reel :=
  nth_error (items s) (activeIndex s).

(** [bestIdx >= children.length - 2], on at least one child. *)
Definition near_end (children : list Z) (top : Q) : bool :=
  match children with
  | [] => false
  | _ :: _ =>
      Z.of_nat (List.length children) - 2 <=? Z.of_nat (bestIdx_of children top)
  end.

(** Whether a scroll event calls [loadMore(false)]. *)
Definition triggers (children : list Z) (top : Q) (s : State) : bool :=
  near_end children top && hasMore s && negb (loading s).

(** The query string of [loadMore(false)] in a state. *)
Definition more_query (s : State) : list (string * string) :=
  if truthy_ostring (cursor s)
  then [("cursor", nullish (cursor s) EmptyString)] else [].

(** A state with other items. *)
Definition with_items (l : list Reel) (s : State) : State :=
  {| items := l; loading := loading s; cursor := cursor s;
     hasMore := hasMore s; err := err s; activeIndex := activeIndex s |}.

End ReelsPaged.

(* ===================================================================== *)
(** ** The paginated feed in its environment                              *)
(* ===================================================================== *)

(** The component between events.  Besides the state cells, the requests in
    flight are kept: one entry per call of [loadMore] that has not settled
    (its [initial] argument) and one per like that has not settled (its reel).

    An event is possible when the rendered view offers it: a scroll event
    when the feed is shown, over as many [data-reel] nodes as there are
    items; a click on the retry button when the error view is shown; a click
    on the like button of a reel that is shown.  A request in flight may
    settle at any time, in any order, with any outcome.  The component is
    mounted once, and each event sees the state the previous one left. *)
Module ReelsRun.
Import ReelsPaged.

Record Sys := {
  comp : State;
  loads : list bool;
  likes : list string
}.

Inductive Event :=
| Scroll (children : list Z) (top : Q)
| Retry
| LoadSettled (n : nat) (r : Settled (Response (option Page.t)))
| LikeClick (me : Session) (reelId : string)
| LikeSettled (n : nat) (r : Settled (Response unit)).

Definition feed_shown (s : State) : bool :=
  match render s with Feed _ _ _ => true | _ => false end.

Definition retry_shown (s : State) : bool :=
  match render s with ErrorRetry _ => true | _ => false end.

Definition has_button (reelId : string) (s : State) : bool :=
  existsb (fun r => String.eqb (id r) reelId) (items s).

Definition remove_at {A} (n : nat) (l : list A) : list A :=
  (firstn n l ++ skipn (S n) l)%list.

Definition step (e : Event) (y : Sys) : option Sys :=
  match e with
  | Scroll children top =>
      if feed_shown (comp y)
         && (List.length children =? List.length (items (comp y)))%nat
      then
        let w := snd (run (onScroll children top) (comp y)) in
        Some {| comp := state w;
                loads := (loads y
                          ++ map (fun _ => false) (fetches (calls w)))%list;
                likes := likes y |}
      else None
  | Retry =>
      if retry_shown (comp y)
      then
        let w := snd (run (loadMore_start true) (comp y)) in
        Some {| comp := state w;
                loads := (loads y
                          ++ map (fun _ => true) (fetches (calls w)))%list;
                likes := likes y |}
      else None
  | LoadSettled n r =>
      match nth_error (loads y) n with
      | Some initial =>
          Some {| comp := state_after (loadMore_resume initial r) (comp y);
                  loads := remove_at n (loads y);
                  likes := likes y |}
      | None => None
      end
  | LikeClick me reelId =>
      if feed_shown (comp y) && has_button reelId (comp y)
      then
        let w := snd (run (onLike_start me reelId) (comp y)) in
        Some {| comp := state w;
                loads := loads y;
                likes := (likes y
                          ++ map (fun _ => reelId) (fetches (calls w)))%list |}
      else None
  | LikeSettled n r =>
      match nth_error (likes y) n with
      | Some reelId =>
          Some {| comp := state_after (onLike_resume reelId r) (comp y);
                  loads := loads y;
                  likes := remove_at n (likes y) |}
      | None => None
      end
  end.

Fixpoint steps (events : list Event) (y : Sys) : option Sys :=
  match events with
  | [] => Some y
  | e :: rest =>
      match step e y with
      | Some y' => steps rest y'
      | None => None
      end
  end.

(** After the mount effect, which calls [loadMore(true)]. *)
Definition mounted : Sys :=
  let w := snd (run (loadMore_start true) initial_state) in
  {| comp := state w;
     loads := map (fun _ => true) (fetches (calls w));
     likes := [] |}.

(** The identifiers of the loaded reels, in order. *)
Definition ids (y : Sys) : list string := map id (items (comp y)).

(** What holds between events: while an initial load is in flight it is the
    only load in flight, nothing is loaded and the loading flag is up;
    otherwise the flag is down; a later load is in flight only over a
    non-empty feed. *)
Definition Inv (y : Sys) : Prop :=
  (In true (loads y) ->
   items (comp y) = [] /\ loading (comp y) = true /\ loads y = [true])
  /\ (~ In true (loads y) -> loading (comp y) = false)
  /\ (In false (loads y) -> items (comp y) <> []).

End ReelsRun.

(* ===================================================================== *)
(** ** The notifications list (src/unnamed/part_000, [NotificationsPage]) *)
(* ===================================================================== *)

Module NotificationsPage.

Record NotificationItem := {
  id : string;
  type : string;
  data : string;
  readAt : option string;
  createdAt : string
}.

Record State := {
  items : list NotificationItem;
  loading : bool;
  error : option string
}.

Definition initial_state : State :=
  {| items := []; loading := false; error := None |}.

Definition setItems (l : list NotificationItem) : M State unit :=
  set "items" (fun s => {| items := l; loading := loading s; error := error s |}).

Definition setLoading (b : bool) : M State unit :=
  set "loading" (fun s => {| items := items s; loading := b; error := error s |}).

Definition setError (e : option string) : M State unit :=
  set "error" (fun s => {| items := items s; loading := loading s; error := e |}).

(** [load()] up to the [await]; the result tells whether a request was sent. *)
Definition load_start (authed : bool) : M State bool :=
  if negb authed then ret false
  else
    setLoading true;;
    setError None;;
    emit (Fetch "GET" "/notifications" []);;
    ret true.

(** [load()] from the settled request on.  [alive] is the flag of the effect
    that started the load, as it stands when the request settles; the resolved
    value is [Some l] when it is an array. *)
Definition load_resume (alive : bool)
           (r : Settled (option (list NotificationItem))) : M State unit :=
  try_catch_finally
    (r' <- await r;;
     if negb alive then ret tt
     else setItems (nullish r' []))
    (fun e =>
       if negb alive then ret tt
       else setError (Some (or_string (message e)
                                      "No se pudieron cargar las notificaciones")))
    (if negb alive then ret tt else setLoading false).

(** What the page renders, given the session. *)
Inductive View :=
| Resolving                        (* "Cargando…" *)
| AuthGate                         (* the sign-in prompt *)
| LoadingList                      (* "Cargando notificaciones…" *)
| ErrorCard (msg : string)
| List (rows : list NotificationItem).

Definition render (meLoading authed : bool) (s : State) : View :=
  if meLoading then Resolving
  else if negb authed then AuthGate
  else if loading s then LoadingList
  else if truthy_ostring (error s) then ErrorCard (nullish (error s) EmptyString)
  else List (items s).

(** A load whose request settles before anything else happens. *)
Definition load (authed alive : bool)
           (r : Settled (option (list NotificationItem))) : M State unit :=
  sent <- load_start authed;;
  if sent then load_resume alive r else ret tt.

End NotificationsPage.

(* ===================================================================== *)
(** ** The simple reels view (src/apps/web/app/reels/ReelsClient.tsx)     *)
(* ===================================================================== *)

Module ReelsClient.

Record Stats := { likes : option Z; comments : option Z }.

Record Reel := {
  id : string;
  createdAt : string;
  caption : option string;
  mediaUrl : option string;
  thumbnailUrl : option string;
  locked : option bool;
  stats : option Stats
}.

Record State := {
  items : list Reel;
  loading : bool;
  err : option string;
  activeIndex : Z
}.

Definition initial_state : State :=
  {| items := []; loading := true; err := None; activeIndex := 0 |}.

Definition setItems (l : list Reel) : M State unit :=
  set "items" (fun s =>
    {| items := l; loading := loading s; err := err s;
       activeIndex := activeIndex s |}).

Definition setLoading (b : bool) : M State unit :=
  set "loading" (fun s =>
    {| items := items s; loading := b; err := err s;
       activeIndex := activeIndex s |}).

Definition setErr (e : option string) : M State unit :=
  set "err" (fun s =>
    {| items := items s; loading := loading s; err := e;
       activeIndex := activeIndex s |}).

Definition setActiveIndex (i : Z) : M State unit :=
  set "activeIndex" (fun s =>
    {| items := items s; loading := loading s; err := err s;
       activeIndex := i |}).

(** The mount effect up to [await apiFetch("/videos")]. *)
Definition load_start : M State unit :=
  setLoading true;;
  setErr None;;
  emit (Fetch "GET" "/videos" []).

(** The mount effect from the settled request on.  [mounted] is the flag of
    the effect as it stands when the request settles; the resolved value is
    [data.items] when that is an array.  Reading [data.items] off a value
    that is no object throws inside the [try]: that is the [Rejected] case. *)
Definition load_resume (mounted : bool)
           (r : Settled (option (list Reel))) : M State unit :=
  try_catch_finally
    (data_items <- await r;;
     if negb mounted then ret tt
     else setItems (nullish data_items []))
    (fun e =>
       if negb mounted then ret tt
       else setErr (Some (or_string (message e) "Error cargando reels")))
    (if negb mounted then ret tt else setLoading false).

(** [Math.round(x)]: the nearest integer, halves towards plus infinity. *)
Definition Math_round (x : Q) : Z := Qfloor (x + (1 # 2)).

(** [onScroll]: [innerHeight] is [window.innerHeight], [top] is
    [el.scrollTop]. *)
Definition onScroll (innerHeight : Z) (top : Q) : M State unit :=
  s <- get;;
  let h := if innerHeight =? 0 then 1 else innerHeight in
  let idx := Math_round (top / inject_Z h) in
  setActiveIndex (Z.max 0 (Z.min idx (Z.of_nat (List.length (items s)) - 1))).

(** A run of scroll events. *)
Fixpoint scrolls (events : list (Z * Q)) : M State unit :=
  match events with
  | [] => ret tt
  | (innerHeight, top) :: rest => onScroll innerHeight top;; scrolls rest
  end.

(** [parts.join(sep)] *)
Fixpoint join (sep : string) (parts : list string) : string :=
  match parts with
  | [] => EmptyString
  | x :: rest =>
      match rest with
      | [] => x
      | _ :: _ => x ++ sep ++ join sep rest
      end
  end.

(** [parts.filter(Boolean)]; a part that is [false], [null] or [undefined]
    is [None]. *)
Fixpoint filter_Boolean (parts : list (option string)) : list string :=
  match parts with
  | [] => []
  | Some x :: rest =>
      if truthy_string x then x :: filter_Boolean rest else filter_Boolean rest
  | None :: rest => filter_Boolean rest
  end.

(** [cn(...parts)] *)
Definition cn (parts : list (option string)) : string :=
  join " " (filter_Boolean parts).

(** What the view renders; [canShow] is [!meLoading]. *)
Inductive View :=
| Blank
| Loading                          (* "Cargando reels…" *)
| ErrorReload (msg : string)
| NoReels                          (* "No hay reels todavía." *)
| Slides (rows : list Reel) (activeSlide : Z).

Definition render (meLoading : bool) (s : State) : View :=
  if meLoading then Blank
  else if loading s then Loading
  else if truthy_ostring (err s) then ErrorReload (nullish (err s) EmptyString)
  else match items s with
       | [] => NoReels
       | _ :: _ => Slides (items s) (activeIndex s)
       end.

(** The mount effect, when its request settles before anything else. *)
Definition load (mounted : bool) (r : Settled (option (list Reel)))
  : M State unit :=
  load_start;; load_resume mounted r.

End ReelsClient.

(* ===================================================================== *)
(** ** The post feed (src/unnamed/part_001, [FeedClient])                 *)
(* ===================================================================== *)

Module FeedClient.

Record Author := { a_id : string; username : string;
                   displayName : option string; avatarUrl : option string }.

Record FeedPost := {
  id : string;
  title : option string;
  text : option string;
  isPublic : option bool;
  createdAt : option string;
  mediaUrl : option string;
  mediaType : option string;
  author : Author
}.

Record State := {
  posts : list FeedPost;
  loading : bool;
  error : option string
}.

Definition initial_state : State :=
  {| posts := []; loading := true; error := None |}.

Definition setPosts (l : list FeedPost) : M State unit :=
  set "posts" (fun s => {| posts := l; loading := loading s; error := error s |}).

Definition setLoading (b : bool) : M State unit :=
  set "loading" (fun s => {| posts := posts s; loading := b; error := error s |}).

Definition setError (e : option string) : M State unit :=
  set "error" (fun s => {| posts := posts s; loading := loading s; error := e |}).

(** The body of [GET /posts/feed]: the array may come under three names. *)
Module Body.
Record t := {
  items : option (list FeedPost);
  posts : option (list FeedPost);
  data : option (list FeedPost)
}.
End Body.

(** [data.items || data.posts || data.data || []]: an array is truthy. *)
Definition items_of (d : Body.t) : list FeedPost :=
  match Body.items d, Body.posts d, Body.data d with
  | Some l, _, _ => l
  | None, Some l, _ => l
  | None, None, Some l => l
  | None, None, None => []
  end.

(** [load()] up to [await apiGet("/posts/feed")]. *)
Definition load_start : M State unit :=
  setLoading true;;
  setError None;;
  emit (Fetch "GET" "/posts/feed" []).

(** [load()] from the settled request on; [mounted] is the flag of the effect
    as it stands when the request settles.  Reading the fields off a value
    that is no object throws inside the [try]: that is the [Rejected] case. *)
Definition load_resume (mounted : bool) (r : Settled Body.t) : M State unit :=
  try_catch_finally
    (d <- await r;;
     let items := items_of d in
     if mounted then setPosts items else ret tt)
    (fun e =>
       if mounted
       then setError (Some (or_string (message e) "No se pudo cargar el feed."))
       else ret tt)
    (if mounted then setLoading false else ret tt).

(** What [content] renders. *)
Inductive View :=
| Loading                          (* "Cargando publicaciones…" *)
| ErrorCard (msg : string)
| NoPosts                          (* "Aún no hay publicaciones" *)
| Posts (rows : list FeedPost).

Definition content (s : State) : View :=
  if loading s then Loading
  else if truthy_ostring (error s) then ErrorCard (nullish (error s) EmptyString)
  else match posts s with
       | [] => NoPosts
       | _ :: _ => Posts (posts s)
       end.

(** The mount effect, when its request settles before anything else. *)
Definition load (mounted : bool) (r : Settled Body.t) : M State unit :=
  load_start;; load_resume mounted r.

End FeedClient.

(* ===================================================================== *)
(** ** Sample data                                                        *)
(* ===================================================================== *)

Module Sample.
Import ReelsPaged.

Definition nobody : Author :=
  {| a_id := "u1"; username := "ana"; displayName := None; avatarUrl := None |}.

(** A reel with the given identifier, like flag and like count. *)
Definition reel (i : string) (liked : option bool) (count : option Z) : Reel :=
  {| id := i; createdAt := None; caption := None; media := []; author := nobody;
     likesCount := count; commentsCount := None; viewerHasLiked := liked |}.

(** A feed that has loaded the given reels and expects more. *)
Definition loaded (l : list Reel) : State :=
  {| items := l; loading := false; cursor := Some "abc"; hasMore := true;
     err := None; activeIndex := 0%nat |}.

Definition signed_in : Session := {| authed := true; meLoading := false |}.
Definition signed_out : Session := {| authed := false; meLoading := false |}.
Definition resolving : Session := {| authed := false; meLoading := true |}.

(** A response with the given status line and JSON body. *)
Definition response {D} (is_ok : bool) (code : nat) (body : string) (d : D)
  : Response D :=
  {| ok := is_ok; status := code; text := Resolved body; json := Resolved d |}.

Definition page (l : list Reel) (c : option string) (more : option bool)
  : option Page.t :=
  Some {| Page.items := Some l; Page.reels := None;
          Page.nextCursor := c; Page.hasMore := more |}.

(** A state of the simple reels view with [n] loaded reels. *)
Definition slide (i : string) : ReelsClient.Reel :=
  {| ReelsClient.id := i; ReelsClient.createdAt := "2024-01-01";
     ReelsClient.caption := None; ReelsClient.mediaUrl := None;
     ReelsClient.thumbnailUrl := None; ReelsClient.locked := None;
     ReelsClient.stats := None |}.

Definition slides (l : list ReelsClient.Reel) : ReelsClient.State :=
  {| ReelsClient.items := l; ReelsClient.loading := false;
     ReelsClient.err := None; ReelsClient.activeIndex := 0 |}.

(** A feed that has loaded the given reels and expects no more. *)
Definition ended (l : list Reel) : State :=
  {| items := l; loading := false; cursor := None; hasMore := false;
     err := None; activeIndex := 0%nat |}.

(** A run of the paginated feed up to an empty page: the first page brings
    one reel, two scroll events near the end each send a request for the
    next page, and the first of the two comes back with no reel, a cursor
    and [hasMore: true]. *)
Definition empty_page_run : list ReelsRun.Event :=
  [ReelsRun.LoadSettled
     0 (Resolved (response true 200 EmptyString
                           (page [reel "a" None None] (Some "abc") (Some true))));
   ReelsRun.Scroll [0] (0 # 1);
   ReelsRun.Scroll [0] (0 # 1);
   ReelsRun.LoadSettled
     0 (Resolved (response true 200 EmptyString
                           (page [] (Some "def") (Some true))))].

(** The other request then comes back with one reel. *)
Definition late_page_run : list ReelsRun.Event :=
  [ReelsRun.LoadSettled
     0 (Resolved (response true 200 EmptyString
                           (page [reel "b" None None] (Some "ghi") (Some true))))].

(** A run of the paginated feed: the first load fails, the retry brings one
    reel and a cursor, a scroll event asks for the next page, a like is
    clicked and its request is rejected. *)
Definition sample_run : list ReelsRun.Event :=
  [ReelsRun.LoadSettled 0 (Resolved (response false 503 EmptyString None));
   ReelsRun.Retry;
   ReelsRun.LoadSettled
     0 (Resolved (response true 200 EmptyString
                           (page [reel "a" (Some false) (Some 3)] (Some "abc")
                                 (Some true))));
   ReelsRun.Scroll [0] (0 # 1);
   ReelsRun.LikeClick signed_in "a";
   ReelsRun.LikeSettled 0 (Rejected (Error None))].

End Sample.

(* ===================================================================== *)
(** ** Running handlers                                                   *)
(* ===================================================================== *)

Section Running.
Context {S A B : Type}.

Lemma bind_inr (m : M S A) (k : A -> M S B) (w w1 : World S) (a : A) :
  m w = (inr a, w1) -> bind m k w = k a w1.
Proof. intros H. unfold bind. now rewrite H. Qed.

Lemma bind_inl (m : M S A) (k : A -> M S B) (w w1 : World S) (e : JsError) :
  m w = (inl e, w1) -> bind m k w = (inl e, w1).
Proof. intros H. unfold bind. now rewrite H. Qed.

End Running.

(* ===================================================================== *)
(** ** Properties of the like toggle                                      *)
(* ===================================================================== *)

Section LikeToggle.
Import ReelsPaged.

Lemma toggled_shownLiked (r : Reel) :
  shownLiked (toggled r) = negb (shownLiked r).
Proof. reflexivity. Qed.

Lemma toggled_shownCount (r : Reel) :
  shownCount (toggled r)
  = Z.max 0 (shownCount r + (if shownLiked r then -1 else 1)).
Proof. reflexivity. Qed.

Lemma toggled_count_nonneg (r : Reel) : count_nonneg (toggled r).
Proof. unfold count_nonneg. rewrite toggled_shownCount. lia. Qed.

Lemma toggled_id (r : Reel) : id (toggled r) = id r.
Proof. reflexivity. Qed.

(** Two toggles in a row, on the shown values. *)
Lemma toggled_twice_shown (r : Reel) :
  like_consistent r ->
  shownCount (toggled (toggled r)) = shownCount r
  /\ shownLiked (toggled (toggled r)) = shownLiked r.
Proof.
  unfold like_consistent. intros H.
  rewrite !toggled_shownCount, !toggled_shownLiked, negb_involutive.
  split; [| reflexivity].
  destruct (shownLiked r); cbn [negb]; lia.
Qed.

(** Two toggles in a row, on a reel that carries both fields. *)
Lemma toggled_twice_present (r : Reel) :
  like_consistent r ->
  likesCount r <> None -> viewerHasLiked r <> None ->
  toggled (toggled r) = r.
Proof.
  intros H Hc Hl.
  destruct (toggled_twice_shown r H) as [Hcount Hliked].
  destruct r as [i ca cp m a [n |] cc [b |]]; cbn in Hc, Hl; try congruence.
  unfold shownCount, shownLiked in *. cbn in *.
  unfold toggled; cbn. rewrite Hcount. now rewrite negb_involutive.
Qed.

(** Where the clamp bites, the second toggle does not give the count back. *)
Lemma toggled_twice_clamped (r : Reel) :
  ~ like_consistent r ->
  shownCount (toggled (toggled r)) <> shownCount r.
Proof.
  unfold like_consistent. intros H.
  rewrite !toggled_shownCount, !toggled_shownLiked.
  destruct (shownLiked r); cbn [negb]; lia.
Qed.

Lemma toggleLike_length (reelId : string) (l : list Reel) :
  List.length (toggleLike reelId l) = List.length l.
Proof. apply length_map. Qed.

Lemma toggleLike_nonneg (reelId : string) (l : list Reel) :
  Forall count_nonneg l -> Forall count_nonneg (toggleLike reelId l).
Proof.
  unfold toggleLike. induction 1 as [| r l Hr _ IH]; cbn; constructor; auto.
  destruct (String.eqb (id r) reelId); auto using toggled_count_nonneg.
Qed.

(** The list after two toggles of the same identifier. *)
Lemma toggleLike_twice (reelId : string) (l : list Reel) :
  toggleLike reelId (toggleLike reelId l)
  = map (fun r => if String.eqb (id r) reelId then toggled (toggled r) else r) l.
Proof.
  unfold toggleLike. rewrite map_map. apply map_ext. intros r.
  destruct (String.eqb (id r) reelId) eqn:E.
  - now rewrite toggled_id, E.
  - now rewrite E.
Qed.

End LikeToggle.

(* ===================================================================== *)
(** ** The like handler                                                   *)
(* ===================================================================== *)

Section LikeHandler.
Import ReelsPaged.

#[local] Arguments String.append : simpl never.

Ltac unfold_handlers :=
  unfold onLike, onLike_start, onLike_resume, requireAuth, like_event,
    setItems, try_catch, try_catch_finally, bind, await, ret, throw, set, emit.

(** The session check keeps an unauthenticated viewer out once the session has
    resolved: one navigation, nothing else. *)
Lemma onLike_start_gated (me : Session) (reelId : string) (w : World State) :
  authed me = false -> meLoading me = false ->
  onLike_start me reelId w
  = (inr false, {| state := state w;
                   calls := (calls w ++ [Push "/login?next=/reels"])%list |}).
Proof. intros Ha Hl. unfold_handlers. now rewrite Ha, Hl. Qed.

(** Otherwise the toggle is applied and the request is sent. *)
Lemma onLike_start_passes (me : Session) (reelId : string) (w : World State) :
  negb (authed me) && negb (meLoading me) = false ->
  let w' := snd (onLike_start me reelId w) in
  fst (onLike_start me reelId w) = inr true
  /\ items (state w') = toggleLike reelId (items (state w))
  /\ calls w' = (calls w ++ [SetState "items";
                              Fetch "POST" ("/reels/" ++ reelId ++ "/like")%string []])%list.
Proof.
  intros H. unfold_handlers. rewrite H. cbn.
  rewrite <- app_assoc. auto.
Qed.

(** When the request has failed, the continuation toggles once more. *)
Lemma onLike_resume_failed {D} (reelId : string) (r : Settled (Response D))
      (w : World State) :
  like_failed r = true ->
  let w' := snd (onLike_resume reelId r w) in
  items (state w') = toggleLike reelId (items (state w))
  /\ calls w' = (calls w ++ [SetState "items"])%list.
Proof.
  intros H. unfold_handlers.
  destruct r as [res | e]; cbn in *.
  - destruct (ok res); cbn in *; [discriminate | auto].
  - auto.
Qed.

(** When the request has succeeded, the continuation does nothing. *)
Lemma onLike_resume_ok {D} (reelId : string) (r : Settled (Response D))
      (w : World State) :
  like_failed r = false ->
  snd (onLike_resume reelId r w) = w.
Proof.
  intros H. unfold_handlers.
  destruct r as [res | e]; cbn in *; [| discriminate].
  destruct (ok res); cbn in *; [| discriminate].
  now destruct w.
Qed.

(** Whatever happened to the request, the continuation maps the items by
    zero or one toggle. *)
Lemma onLike_resume_items {D} (reelId : string) (r : Settled (Response D))
      (w : World State) :
  items (state (snd (onLike_resume reelId r w)))
  = if like_failed r then toggleLike reelId (items (state w))
    else items (state w).
Proof.
  destruct (like_failed r) eqn:E.
  - now apply onLike_resume_failed.
  - now rewrite onLike_resume_ok.
Qed.

Lemma onLike_start_items (me : Session) (reelId : string) (w : World State) :
  items (state (snd (onLike_start me reelId w)))
  = if negb (authed me) && negb (meLoading me) then items (state w)
    else toggleLike reelId (items (state w)).
Proof.
  destruct (negb (authed me) && negb (meLoading me)) eqn:E.
  - apply andb_prop in E. destruct E as [Ea El].
    apply negb_true_iff in Ea, El. now rewrite onLike_start_gated.
  - now apply onLike_start_passes.
Qed.

(** A failed like, seen whole: the items are toggled twice, by exactly two
    calls of the setter around the one request. *)
Lemma onLike_failed_run {D} (me : Session) (reelId : string)
      (r : Settled (Response D)) (s : State) :
  negb (authed me) && negb (meLoading me) = false ->
  like_failed r = true ->
  items (state_after (onLike me reelId r) s)
  = toggleLike reelId (toggleLike reelId (items s))
  /\ calls_of (onLike me reelId r) s
     = [SetState "items"; Fetch "POST" ("/reels/" ++ reelId ++ "/like") [];
        SetState "items"].
Proof.
  intros Hgate Hfail. unfold state_after, calls_of, run.
  set (w := {| state := s; calls := [] |}).
  destruct (onLike_start_passes me reelId w Hgate) as (Hres & Hitems & Hcalls).
  destruct (onLike_start me reelId w) as [[e | sent] w1] eqn:E; cbn in Hres;
    [discriminate |].
  injection Hres as ->. cbn in Hitems, Hcalls.
  unfold onLike. rewrite (bind_inr _ _ _ _ _ E).
  destruct (onLike_resume_failed reelId r w1 Hfail) as (Hi & Hc).
  cbn in Hi, Hc. rewrite Hi, Hc, Hitems, Hcalls. auto.
Qed.

(** Rollback on the reels where the clamp does not bite: after a failed like
    every reel is back to what it was. *)
Lemma onLike_failed_restores {D} (me : Session) (reelId : string)
      (r : Settled (Response D)) (s : State) :
  negb (authed me) && negb (meLoading me) = false ->
  like_failed r = true ->
  Forall (fun x => id x = reelId ->
                   like_consistent x /\ likesCount x <> None
                   /\ viewerHasLiked x <> None) (items s) ->
  items (state_after (onLike me reelId r) s) = items s.
Proof.
  intros Hgate Hfail Hall.
  destruct (onLike_failed_run me reelId r s Hgate Hfail) as [-> _].
  rewrite toggleLike_twice.
  induction Hall as [| x l Hx _ IH]; cbn; [reflexivity |].
  rewrite IH. f_equal.
  destruct (String.eqb_spec (id x) reelId) as [E | _]; [| reflexivity].
  destruct (Hx E) as (H1 & H2 & H3). now apply toggled_twice_present.
Qed.

End LikeHandler.

(* ===================================================================== *)
(** ** Likes: rollback, double toggle, lower bound, sign-in gate          *)
(* ===================================================================== *)

Section LikeClaims.
Import ReelsPaged.

#[local] Arguments String.append : simpl never.

(** C1.  Rollback of a failed like, on a liked reel whose count is zero: the
    optimistic toggle clamps the count at zero, the request fails with status
    500, and the second toggle, meant to revert the first, leaves the reel
    liked with a count of one instead of zero.  The setter ran exactly twice,
    around the one request. *)
Theorem onLike_rollback_misses_clamped_count :
  let s0 := Sample.loaded [Sample.reel "x" (Some true) (Some 0)] in
  let failed := Resolved (Sample.response false 500 EmptyString tt) in
  items (state_after (onLike Sample.signed_in "x" failed) s0)
  = [Sample.reel "x" (Some true) (Some 1)]
  /\ items (state_after (onLike Sample.signed_in "x" failed) s0) <> items s0
  /\ calls_of (onLike Sample.signed_in "x" failed) s0
     = [SetState "items"; Fetch "POST" "/reels/x/like" []; SetState "items"].
Proof. cbv. repeat split. discriminate. Qed.

(** C2, as amended.  On a reel whose count is at least one when it is liked
    and at least zero otherwise (a missing count reads as zero, a missing flag
    as not liked), two toggles in a row give back the shown count and the
    shown flag; when the reel carries both fields, they give back the reel
    itself. *)
Theorem toggled_twice_restores (r : Reel) :
  like_consistent r ->
  shownCount (toggled (toggled r)) = shownCount r
  /\ shownLiked (toggled (toggled r)) = shownLiked r
  /\ (likesCount r <> None -> viewerHasLiked r <> None ->
      toggled (toggled r) = r).
Proof.
  intros H. destruct (toggled_twice_shown r H) as [Hc Hl].
  repeat split; auto using toggled_twice_present.
Qed.

Lemma toggled_twice_restores_witness :
  like_consistent (Sample.reel "x" (Some false) (Some 5))
  /\ shownCount (toggled (toggled (Sample.reel "x" (Some false) (Some 5)))) = 5.
Proof.
  split.
  - unfold like_consistent. cbn. lia.
  - apply (toggled_twice_restores (Sample.reel "x" (Some false) (Some 5))).
    unfold like_consistent. cbn. lia.
Defined.

(** C2 as stated fails on a liked reel whose count is zero: the first toggle
    clamps at zero and the second counts up to one. *)
Lemma toggled_twice_counterexample :
  let r := Sample.reel "x" (Some true) (Some 0) in
  likesCount (toggled (toggled r)) = Some 1
  /\ likesCount (toggled (toggled r)) <> likesCount r.
Proof. cbv. split; [reflexivity | discriminate]. Qed.

Lemma like_event_returns (e : LikeEvent) (w : World State) :
  fst (like_event e w) = inr tt.
Proof.
  destruct e as [me i | i r]; cbn.
  - unfold onLike_start, requireAuth, bind.
    destruct (negb (authed me) && negb (meLoading me)); reflexivity.
  - unfold onLike_resume, try_catch, try_catch_finally, bind.
    destruct r as [res | e]; cbn; [destruct (ok res) |]; reflexivity.
Qed.

Lemma like_event_items (e : LikeEvent) (w : World State) :
  exists reelId,
    items (state (snd (like_event e w))) = items (state w)
    \/ items (state (snd (like_event e w))) = toggleLike reelId (items (state w)).
Proof.
  destruct e as [me i | i r]; exists i; cbn [like_event].
  - unfold bind. pose proof (onLike_start_items me i w) as H.
    destruct (onLike_start me i w) as [[e | b] w1]; cbn in *;
      destruct (negb (authed me) && negb (meLoading me)); auto.
  - rewrite onLike_resume_items. destruct (like_failed r); auto.
Qed.

Lemma like_events_nonneg (events : list LikeEvent) (w : World State) :
  Forall count_nonneg (items (state w)) ->
  Forall count_nonneg (items (state (snd (like_events events w)))).
Proof.
  revert w. induction events as [| e rest IH]; intros w Hw; [exact Hw |].
  cbn [like_events].
  pose proof (like_event_returns e w) as Hret.
  destruct (like_event_items e w) as [i Hi].
  destruct (like_event e w) as [[x | []] w1] eqn:E; cbn in Hret, Hi;
    [discriminate |].
  rewrite (bind_inr _ _ _ _ _ E). apply IH.
  destruct Hi as [-> | ->]; auto using toggleLike_nonneg.
Qed.

(** C8.  Through any sequence of clicks on like buttons and of settlements of
    their requests, in any order and with any outcomes, the counts stay at or
    above zero: if no loaded reel has a negative count before, none has one
    after (the sequence is arbitrary, so this holds after each of its
    prefixes). *)
Theorem likesCount_never_negative (events : list LikeEvent) (s : State) :
  Forall count_nonneg (items s) ->
  Forall count_nonneg (items (state_after (like_events events) s)).
Proof. intros H. unfold state_after, run. now apply like_events_nonneg. Qed.

Lemma likesCount_never_negative_witness :
  Forall count_nonneg (items (Sample.loaded [Sample.reel "x" (Some true) (Some 0)]))
  /\ Forall count_nonneg
       (items (state_after
                 (like_events [Click Sample.signed_in "x";
                               Click Sample.signed_in "x";
                               Settle "x" (Rejected (Error None))])
                 (Sample.loaded [Sample.reel "x" (Some true) (Some 0)]))).
Proof.
  assert (H : Forall count_nonneg
                (items (Sample.loaded [Sample.reel "x" (Some true) (Some 0)]))).
  { repeat constructor. unfold count_nonneg. cbn. lia. }
  split; [exact H |].
  apply likesCount_never_negative. exact H.
Defined.

(** C5, as amended.  For an unauthenticated viewer: once the session has
    resolved, a like only navigates to the sign-in path, with no state update
    and no request; while the session is still resolving, the like is not held
    back: the optimistic toggle is applied and the request is sent, with no
    navigation. *)
Theorem onLike_gate (me : Session) (reelId : string)
        (r : Settled (Response unit)) (s : State) :
  authed me = false ->
  (meLoading me = false ->
   state_after (onLike me reelId r) s = s
   /\ calls_of (onLike me reelId r) s = [Push "/login?next=/reels"])
  /\ (meLoading me = true ->
      items (state_after (onLike_start me reelId) s) = toggleLike reelId (items s)
      /\ calls_of (onLike_start me reelId) s
         = [SetState "items";
            Fetch "POST" ("/reels/" ++ reelId ++ "/like")%string []]).
Proof.
  intros Ha. split; intros Hl.
  - unfold state_after, calls_of, run, onLike.
    rewrite (bind_inr _ _ _ _ _ (onLike_start_gated me reelId _ Ha Hl)).
    cbn. auto.
  - assert (Hgate : negb (authed me) && negb (meLoading me) = false)
      by (rewrite Hl; apply andb_false_r).
    unfold state_after, calls_of, run.
    destruct (onLike_start_passes me reelId {| state := s; calls := [] |} Hgate)
      as (_ & Hi & Hc).
    cbn in Hi, Hc. auto.
Qed.

Lemma onLike_gate_witness :
  authed Sample.signed_out = false
  /\ calls_of (onLike Sample.signed_out "x"
                      (Rejected (Error None) : Settled (Response unit)))
              (Sample.loaded [Sample.reel "x" None None])
     = [Push "/login?next=/reels"].
Proof.
  split; [reflexivity |].
  destruct (onLike_gate Sample.signed_out "x" (Rejected (Error None))
                        (Sample.loaded [Sample.reel "x" None None]) eq_refl)
    as [H _].
  exact (proj2 (H eq_refl)).
Defined.

(** C5 as stated fails while the session is resolving: the like of an
    unauthenticated viewer changes the reel and sends the request. *)
Lemma onLike_pending_counterexample :
  let s0 := Sample.loaded [Sample.reel "x" (Some false) (Some 5)] in
  items (state_after (onLike_start Sample.resolving "x") s0)
  = [Sample.reel "x" (Some true) (Some 6)]
  /\ fetches (calls_of (onLike_start Sample.resolving "x") s0)
     = [Fetch "POST" "/reels/x/like" []]
  /\ pushes (calls_of (onLike_start Sample.resolving "x") s0) = [].
Proof. cbv. auto. Qed.

End LikeClaims.

(* ===================================================================== *)
(** ** The loader                                                         *)
(* ===================================================================== *)

Section Loader.
Import ReelsPaged.

#[local] Arguments String.append : simpl never.
#[local] Arguments decimal : simpl never.

Ltac unfold_loader :=
  unfold loadMore_resume, loadMore_start, setItems, setCursor, setHasMore,
    setErr, setLoading, setActiveIndex, try_catch_finally, bind, await, ret,
    throw, set, emit, get.

(** The continuation after a page that arrived. *)
Lemma loadMore_resume_ok (initial : bool)
      (r : Settled (Response (option Page.t))) (data : option Page.t)
      (w : World State) :
  settled_page r = inr data ->
  loadMore_resume initial r w
  = (inr tt,
     {| state :=
          {| items := if initial then nextItems_of data
                      else (items (state w) ++ nextItems_of data)%list;
             loading := false;
             cursor := nextCursor_of data;
             hasMore := nextHasMore_of data
                        && (0 <? Z.of_nat (List.length (nextItems_of data)));
             err := err (state w);
             activeIndex := activeIndex (state w) |};
        calls := (calls w ++ [SetState "items"; SetState "cursor";
                              SetState "hasMore"; SetState "loading"])%list |}).
Proof.
  intros H. unfold_loader.
  destruct r as [res | e]; cbn in H; [| discriminate].
  destruct (ok res); cbn in H |- *.
  - destruct (json res) as [d | e]; [| discriminate].
    injection H as ->. cbn. now rewrite <- !app_assoc.
  - destruct (text res); discriminate.
Qed.

(** The continuation after a request that failed. *)
Lemma loadMore_resume_failed (initial : bool)
      (r : Settled (Response (option Page.t))) (e : JsError)
      (w : World State) :
  settled_page r = inl e ->
  loadMore_resume initial r w
  = (inr tt,
     {| state :=
          {| items := items (state w);
             loading := false;
             cursor := cursor (state w);
             hasMore := false;
             err := Some (nullish (message e) "Error cargando reels");
             activeIndex := activeIndex (state w) |};
        calls := (calls w ++ [SetState "err"; SetState "hasMore";
                              SetState "loading"])%list |}).
Proof.
  intros H. unfold_loader.
  destruct r as [res | e']; cbn in H.
  - destruct (ok res); cbn in H |- *.
    + destruct (json res) as [d | e']; [discriminate |].
      injection H as ->. cbn. now rewrite <- !app_assoc.
    + destruct (text res) as [t | e']; injection H as <-; cbn;
        now rewrite <- !app_assoc.
  - injection H as ->. cbn. now rewrite <- !app_assoc.
Qed.

(** A scroll event in a state where the call of [loadMore] is guarded off
    (a load is shown as running, or no more pages are expected): only the
    active index may change, and nothing is requested. *)
Lemma onScroll_guarded (children : list Z) (top : Q) (w : World State) :
  hasMore (state w) && negb (loading (state w)) = false ->
  exists i l,
    onScroll children top w
    = (inr tt,
       {| state := {| items := items (state w); loading := loading (state w);
                      cursor := cursor (state w); hasMore := hasMore (state w);
                      err := err (state w); activeIndex := i |};
          calls := (calls w ++ l)%list |})
    /\ fetches l = [] /\ (i = activeIndex (state w) \/ i = bestIdx_of children top).
Proof.
  intros H. unfold onScroll.
  destruct children as [| c cs].
  - exists (activeIndex (state w)), []. cbn. rewrite app_nil_r.
    destruct w as [[? ? ? ? ? ?] ?]; auto.
  - exists (bestIdx_of (c :: cs) top), [SetState "activeIndex"].
    unfold_loader. cbn [state calls hasMore loading]. rewrite H. cbn. auto.
Qed.

Lemma fetches_app (l1 l2 : list Call) :
  fetches (l1 ++ l2) = (fetches l1 ++ fetches l2)%list.
Proof. apply filter_app. Qed.

(** Any run of scroll events from such a state. *)
Lemma scrolls_guarded (events : list (list Z * Q)) (w : World State) :
  hasMore (state w) && negb (loading (state w)) = false ->
  let w' := snd (scrolls events w) in
  items (state w') = items (state w)
  /\ cursor (state w') = cursor (state w)
  /\ hasMore (state w') = hasMore (state w)
  /\ loading (state w') = loading (state w)
  /\ fetches (calls w') = fetches (calls w).
Proof.
  revert w. induction events as [| [children top] rest IH]; intros w H.
  - cbn. auto.
  - cbn [scrolls].
    destruct (onScroll_guarded children top w H) as (i & l & E & Hl & _).
    rewrite (bind_inr _ _ _ _ _ E).
    match goal with |- context [scrolls rest ?w1] =>
      specialize (IH w1 H); cbn in IH |- * end.
    destruct IH as (H1 & H2 & H3 & H4 & H5).
    rewrite H1, H2, H3, H4, H5, fetches_app, Hl, app_nil_r. auto.
Qed.

(** The same from a state, with the calls of the run alone. *)
Lemma scrolls_guarded_run (events : list (list Z * Q)) (s : State) :
  hasMore s && negb (loading s) = false ->
  items (state_after (scrolls events) s) = items s
  /\ cursor (state_after (scrolls events) s) = cursor s
  /\ fetches (calls_of (scrolls events) s) = [].
Proof.
  intros G. unfold state_after, calls_of, run.
  destruct (scrolls_guarded events {| state := s; calls := [] |} G)
    as (H1 & H2 & _ & _ & H5).
  auto.
Qed.

(** More-available after a page that arrived. *)
Lemma loadMore_resume_hasMore (initial : bool)
      (r : Settled (Response (option Page.t))) (data : option Page.t)
      (s : State) :
  settled_page r = inr data ->
  hasMore (state_after (loadMore_resume initial r) s)
  = nextHasMore_of data && (0 <? Z.of_nat (List.length (nextItems_of data))).
Proof.
  intros H. unfold state_after, run.
  now rewrite (loadMore_resume_ok initial r data _ H).
Qed.

(** What is rendered after a failed load: with reels already loaded, the feed
    and its end-of-feed line, not the stored message; with none loaded, the
    message and the retry button when the message is not empty. *)
Lemma render_after_failure (initial : bool)
      (r : Settled (Response (option Page.t))) (e : JsError) (s : State) :
  settled_page r = inl e ->
  render (state_after (loadMore_resume initial r) s)
  = match items s with
    | [] => let msg := nullish (message e) "Error cargando reels" in
            if truthy_string msg then ErrorRetry msg else Feed [] false false
    | _ :: _ => Feed (items s) false true
    end.
Proof.
  intros H. unfold state_after, run.
  rewrite (loadMore_resume_failed initial r e _ H). unfold render. cbn.
  destruct (items s); cbn; rewrite ?andb_true_r, ?andb_false_r; reflexivity.
Qed.

End Loader.

(* ===================================================================== *)
(** ** Pagination: the guard, failures, and the more-available flag       *)
(* ===================================================================== *)

Section LoaderClaims.
Import ReelsPaged.

#[local] Arguments String.append : simpl never.
#[local] Arguments decimal : simpl never.

(** C3.  [loadMore()] is called from the scroll handler, which calls it only
    when more pages are expected and no load is shown as running.  So
    through any run of scroll events that starts while the loading flag is
    up or more-available is down, every would-be call is a no-op: the loaded
    reels and the cursor stay as they are and no request is sent. *)
Theorem scrolls_guarded_noop (events : list (list Z * Q)) (s : State) :
  loading s = true \/ hasMore s = false ->
  items (state_after (scrolls events) s) = items s
  /\ cursor (state_after (scrolls events) s) = cursor s
  /\ fetches (calls_of (scrolls events) s) = [].
Proof.
  intros H. apply scrolls_guarded_run.
  destruct H as [-> | ->]; [apply andb_false_r | reflexivity].
Qed.

Lemma scrolls_guarded_noop_witness :
  (loading (Sample.ended [Sample.reel "a" None None; Sample.reel "b" None None])
   = true
   \/ hasMore (Sample.ended [Sample.reel "a" None None;
                             Sample.reel "b" None None])
      = false)
  /\ fetches (calls_of (scrolls [([0; 600], 0%Q); ([0; 600], 600%Q)])
                       (Sample.ended [Sample.reel "a" None None;
                                      Sample.reel "b" None None]))
     = [].
Proof.
  split; [right; reflexivity |].
  apply (scrolls_guarded_noop
           [([0; 600], 0%Q); ([0; 600], 600%Q)]
           (Sample.ended [Sample.reel "a" None None;
                          Sample.reel "b" None None])).
  right. reflexivity.
Defined.

(** C4, as amended.  When the request of a load fails (the call is rejected,
    the response is not ok, or its body cannot be read), the continuation
    leaves the loaded reels and the cursor as they are, stores an error
    message in the error cell, lowers more-available and the loading flag,
    and sends nothing; no scroll event afterwards sends a request either.
    The stored message is rendered, with the retry button, only when no reel
    is loaded and the message is not empty; over loaded reels the view stays
    the feed, with its end-of-feed line, and shows no error. *)
Theorem loadMore_failure_stores_error (initial : bool)
        (r : Settled (Response (option Page.t))) (e : JsError) (s : State) :
  settled_page r = inl e ->
  let s' := state_after (loadMore_resume initial r) s in
  let msg := nullish (message e) "Error cargando reels" in
  items s' = items s
  /\ cursor s' = cursor s
  /\ err s' = Some msg
  /\ hasMore s' = false
  /\ loading s' = false
  /\ fetches (calls_of (loadMore_resume initial r) s) = []
  /\ (forall events, fetches (calls_of (scrolls events) s') = []
                     /\ items (state_after (scrolls events) s') = items s)
  /\ render s'
     = match items s with
       | [] => if truthy_string msg then ErrorRetry msg else Feed [] false false
       | _ :: _ => Feed (items s) false true
       end.
Proof.
  intros H s' msg.
  pose proof (render_after_failure initial r e s H) as Hr.
  assert (Es : s' = {| items := items s; loading := false;
                       cursor := cursor s; hasMore := false;
                       err := Some msg; activeIndex := activeIndex s |}).
  { unfold s', state_after, run.
    now rewrite (loadMore_resume_failed initial r e _ H). }
  assert (Ec : fetches (calls_of (loadMore_resume initial r) s) = []).
  { unfold calls_of, run.
    now rewrite (loadMore_resume_failed initial r e _ H). }
  assert (G : hasMore s' && negb (loading s') = false)
    by now rewrite Es.
  do 5 (split; [now rewrite Es |]).
  split; [exact Ec |]. split; [| exact Hr].
  intros events.
  destruct (scrolls_guarded_run events s' G) as (H1 & _ & H3).
  split; [exact H3 |]. rewrite H1. now rewrite Es.
Qed.

Lemma loadMore_failure_stores_error_witness :
  settled_page (Resolved (Sample.response false 503 EmptyString None))
  = inl (Error (Some "HTTP 503"))
  /\ err (state_after
            (loadMore_resume false
               (Resolved (Sample.response false 503 EmptyString None)))
            (Sample.loaded [Sample.reel "a" None None]))
     = Some "HTTP 503".
Proof.
  split; [reflexivity |].
  apply (loadMore_failure_stores_error
           false (Resolved (Sample.response false 503 EmptyString None))
           (Error (Some "HTTP 503"))
           (Sample.loaded [Sample.reel "a" None None])).
  reflexivity.
Defined.

(** C4 as stated fails on the message being surfaced: after a later load
    answered with status 503 over one loaded reel, the message is in the
    error cell, but what is rendered is the feed with its end-of-feed line
    and no error. *)
Lemma loadMore_failure_not_shown_counterexample :
  let s0 := Sample.loaded [Sample.reel "a" None None] in
  let failed := Resolved (Sample.response false 503 EmptyString None) in
  err (state_after (loadMore_resume false failed) s0) = Some "HTTP 503"
  /\ render (state_after (loadMore_resume false failed) s0)
     = Feed [Sample.reel "a" None None] false true.
Proof. cbv. auto. Qed.

(** C6, as amended.  After a page that arrived with at least one reel,
    more-available is the explicit [hasMore] when the body has one, and
    otherwise tells whether [nextCursor] is a non-empty string; after a page
    with no reel it is false whatever the body says. *)
Theorem loadMore_sets_hasMore (initial : bool)
        (r : Settled (Response (option Page.t))) (data : option Page.t)
        (s : State) :
  settled_page r = inr data ->
  let s' := state_after (loadMore_resume initial r) s in
  (nextItems_of data <> [] ->
   forall b, field data Page.hasMore = Some b -> hasMore s' = b)
  /\ (nextItems_of data <> [] ->
      field data Page.hasMore = None ->
      hasMore s' = truthy_ostring (field data Page.nextCursor))
  /\ (nextItems_of data = [] -> hasMore s' = false).
Proof.
  intros H s'. subst s'. rewrite (loadMore_resume_hasMore initial r data s H).
  unfold nextHasMore_of, nextCursor_of.
  repeat split.
  - intros Hne b ->. destruct (nextItems_of data); [congruence |].
    cbn. apply andb_true_r.
  - intros Hne ->. destruct (nextItems_of data); [congruence |].
    cbn. apply andb_true_r.
  - intros ->. apply andb_false_r.
Qed.

Lemma loadMore_sets_hasMore_witness :
  settled_page
    (Resolved (Sample.response true 200 EmptyString
                 (Sample.page [Sample.reel "b" None None] (Some "def") None)))
  = inr (Sample.page [Sample.reel "b" None None] (Some "def") None)
  /\ hasMore (state_after
                (loadMore_resume false
                   (Resolved (Sample.response true 200 EmptyString
                      (Sample.page [Sample.reel "b" None None] (Some "def") None))))
                ReelsPaged.initial_state)
     = true.
Proof.
  split; [reflexivity |].
  refine (proj1 (proj2 (loadMore_sets_hasMore
            false
            (Resolved (Sample.response true 200 EmptyString
               (Sample.page [Sample.reel "b" None None] (Some "def") None)))
            (Sample.page [Sample.reel "b" None None] (Some "def") None)
            ReelsPaged.initial_state eq_refl)) _ eq_refl).
  discriminate.
Defined.

(** C6 as stated fails on a page with no reel and an explicit
    [hasMore: true]: the rule as worded gives true, the loader stores
    false.  It also fails on a page without [hasMore] whose [nextCursor] is
    the empty string, which is non-null but falsy. *)
Lemma loadMore_hasMore_counterexample :
  let empty := Sample.page [] (Some "def") (Some true) in
  let blank := Sample.page [Sample.reel "b" None None] (Some EmptyString) None in
  let s0 := Sample.loaded [Sample.reel "a" None None] in
  spec_moreAvailable empty = true
  /\ hasMore (state_after
                (loadMore_resume false
                   (Resolved (Sample.response true 200 EmptyString empty))) s0)
     = false
  /\ spec_moreAvailable blank = true
  /\ hasMore (state_after
                (loadMore_resume false
                   (Resolved (Sample.response true 200 EmptyString blank))) s0)
     = false.
Proof. cbv. auto. Qed.

(** C10, as amended.  After a page that arrived with no reel, on an initial
    load or on a later one, more-available is false whatever [hasMore] and
    [nextCursor] the body carries, and while it stays false no scroll event
    sends a request or changes the loaded reels.  The stop is not for good:
    when a later load that was still in flight then arrives with at least
    one reel, more-available is taken from that page again. *)
Theorem loadMore_empty_page_stops (initial : bool)
        (r : Settled (Response (option Page.t))) (data : option Page.t)
        (s : State) :
  settled_page r = inr data ->
  nextItems_of data = [] ->
  let s' := state_after (loadMore_resume initial r) s in
  hasMore s' = false
  /\ (forall events, fetches (calls_of (scrolls events) s') = []
                     /\ items (state_after (scrolls events) s') = items s')
  /\ (forall r2 d2,
        settled_page r2 = inr d2 ->
        nextItems_of d2 <> [] ->
        hasMore (state_after (loadMore_resume false r2) s') = nextHasMore_of d2).
Proof.
  intros H Hempty s'.
  assert (Hm : hasMore s' = false).
  { subst s'. rewrite (loadMore_resume_hasMore initial r data s H), Hempty.
    apply andb_false_r. }
  split; [exact Hm |]. split.
  - intros events.
    assert (G : hasMore s' && negb (loading s') = false) by now rewrite Hm.
    destruct (scrolls_guarded_run events s' G) as (H1 & _ & H3).
    auto.
  - intros r2 d2 H2 Hne.
    rewrite (loadMore_resume_hasMore false r2 d2 s' H2).
    destruct (nextItems_of d2); [congruence |].
    cbn. apply andb_true_r.
Qed.

Lemma loadMore_empty_page_stops_witness :
  settled_page
    (Resolved (Sample.response true 200 EmptyString (Sample.page [] (Some "def") (Some true))))
  = inr (Sample.page [] (Some "def") (Some true))
  /\ nextItems_of (Sample.page [] (Some "def") (Some true)) = []
  /\ hasMore (state_after
                (loadMore_resume true
                   (Resolved (Sample.response true 200 EmptyString
                      (Sample.page [] (Some "def") (Some true)))))
                ReelsPaged.initial_state)
     = false.
Proof.
  split; [reflexivity |]. split; [reflexivity |].
  apply (loadMore_empty_page_stops
           true
           (Resolved (Sample.response true 200 EmptyString
              (Sample.page [] (Some "def") (Some true))))
           (Sample.page [] (Some "def") (Some true))
           ReelsPaged.initial_state);
    reflexivity.
Defined.

(** C10 as stated fails on the stop being permanent.  Two scroll events near
    the end send two requests; the first comes back with no reel and lowers
    more-available; the second then comes back with one reel and raises it
    again, and the next scroll event near the end asks for the page after
    it. *)
Lemma loadMore_empty_page_counterexample :
  exists y1 y2,
    ReelsRun.steps Sample.empty_page_run ReelsRun.mounted = Some y1
    /\ hasMore (ReelsRun.comp y1) = false
    /\ ReelsRun.steps Sample.late_page_run y1 = Some y2
    /\ hasMore (ReelsRun.comp y2) = true
    /\ fetches (calls_of (onScroll [0; 600] (600 # 1)) (ReelsRun.comp y2))
       = [Fetch "GET" "/reels" [("cursor", "ghi")]].
Proof.
  do 2 eexists.
  split; [vm_compute; reflexivity |]. split; [reflexivity |].
  split; [vm_compute; reflexivity |]. split; [reflexivity |].
  vm_compute. reflexivity.
Qed.

End LoaderClaims.

(* ===================================================================== *)
(** ** The active slide                                                   *)
(* ===================================================================== *)

Section Nearest.
Import ReelsPaged.

Lemma dist_lt_Some (d b : Q) : dist_lt d (Some b) = true <-> (d < b)%Q.
Proof.
  unfold dist_lt. rewrite negb_true_iff.
  split.
  - intros H. apply Qnot_le_lt. intros Hle.
    apply Qle_bool_iff in Hle. congruence.
  - intros H. destruct (Qle_bool b d) eqn:E; [| reflexivity].
    apply Qle_bool_iff in E. exfalso. now apply (Qlt_not_le d b).
Qed.

Lemma dist_lt_Some_false (d b : Q) : dist_lt d (Some b) = false <-> (b <= d)%Q.
Proof.
  unfold dist_lt. rewrite negb_false_iff. apply Qle_bool_iff.
Qed.


(** The loop, from any index and any best-so-far: either no child beats the
    best-so-far, which is returned, or the result is the first child, counted
    from [idx], that beats the best-so-far and is nearest among the children. *)
Lemma forEach_best_spec (children : list Z) (top : Q) :
  forall (idx bi : nat) (bd : option Q),
    (forEach_best children idx top (bi, bd) = (bi, bd)
     /\ forall j cj, nth_error children j = Some cj ->
                     dist_lt (dist_of top cj) bd = false)
    \/ (exists k c,
          nth_error children k = Some c
          /\ forEach_best children idx top (bi, bd)
             = ((idx + k)%nat, Some (dist_of top c))
          /\ dist_lt (dist_of top c) bd = true
          /\ (forall j cj, nth_error children j = Some cj ->
                           (dist_of top c <= dist_of top cj)%Q)
          /\ (forall j cj, (j < k)%nat -> nth_error children j = Some cj ->
                           (dist_of top c < dist_of top cj)%Q)).
Proof.
  induction children as [| node rest IH]; intros idx bi bd.
  - left. split; [reflexivity |]. intros [| j] cj; discriminate.
  - cbn [forEach_best snd].
    destruct (dist_lt (dist_of top node) bd) eqn:Hlt.
    + (* the node beats the best so far *)
      right.
      destruct (IH (S idx) idx (Some (dist_of top node)))
        as [[E Hrest] | (k & c & Hk & E & Hc & Hall & Hbefore)].
      * exists 0%nat, node. rewrite E, Nat.add_0_r.
        repeat split; auto.
        -- intros [| j] cj Hj; cbn in Hj.
           ++ injection Hj as <-. apply Qle_refl.
           ++ apply dist_lt_Some_false. eauto.
        -- intros j cj Hj. lia.
      * apply dist_lt_Some in Hc.
        exists (S k), c. rewrite E, Nat.add_succ_r.
        repeat split; auto.
        -- destruct bd as [b |]; [| reflexivity].
           apply dist_lt_Some. apply dist_lt_Some in Hlt.
           eapply Qlt_trans; eauto.
        -- intros [| j] cj Hj; cbn in Hj.
           ++ injection Hj as <-. now apply Qlt_le_weak.
           ++ eauto.
        -- intros [| j] cj Hjk Hj; cbn in Hj.
           ++ now injection Hj as <-.
           ++ apply (Hbefore j); [lia | exact Hj].
    + (* the best so far stays *)
      destruct (IH (S idx) bi bd)
        as [[E Hrest] | (k & c & Hk & E & Hc & Hall & Hbefore)].
      * left. split; [exact E |].
        intros [| j] cj Hj; cbn in Hj; [now injection Hj as <- | eauto].
      * right. exists (S k), c. rewrite E, Nat.add_succ_r.
        assert (Hnode : (dist_of top c < dist_of top node)%Q).
        { destruct bd as [b |]; [| discriminate].
          apply dist_lt_Some in Hc. apply dist_lt_Some_false in Hlt.
          eapply Qlt_le_trans; eauto. }
        repeat split; auto.
        -- intros [| j] cj Hj; cbn in Hj.
           ++ injection Hj as <-. now apply Qlt_le_weak.
           ++ eauto.
        -- intros [| j] cj Hjk Hj; cbn in Hj.
           ++ now injection Hj as <-.
           ++ apply (Hbefore j); [lia | exact Hj].
Qed.

(** On at least one child, the loop returns the lowest index of a nearest
    child. *)
Lemma bestIdx_of_nearest (children : list Z) (top : Q) :
  children <> [] -> is_nearest children top (bestIdx_of children top).
Proof.
  intros Hne. unfold bestIdx_of.
  destruct (forEach_best_spec children top 0 0 None)
    as [[_ Hall] | (k & c & Hk & E & _ & Hall & Hbefore)].
  - destruct children as [| c cs]; [congruence |].
    specialize (Hall 0%nat c eq_refl). discriminate.
  - rewrite E. cbn. exists c. auto.
Qed.




End Nearest.

Section ActiveSlide.










End ActiveSlide.

(* ===================================================================== *)
(** ** Teardown                                                           *)
(* ===================================================================== *)

Section Teardown.

(** In the simple reels view, a request that settles after the cleanup of the
    mount effect has lowered [mounted] leaves everything as it was. *)
Lemma ReelsClient_load_suppressed (r : Settled (option (list ReelsClient.Reel)))
      (w : World ReelsClient.State) :
  snd (ReelsClient.load_resume false r w) = w.
Proof. destruct r, w; reflexivity. Qed.

(** The same in the post feed. *)
Lemma FeedClient_load_suppressed (r : Settled FeedClient.Body.t)
      (w : World FeedClient.State) :
  snd (FeedClient.load_resume false r w) = w.
Proof. destruct r, w; reflexivity. Qed.

(** The same in the notifications list, with its flag [alive]. *)
Lemma NotificationsPage_load_suppressed
      (r : Settled (option (list NotificationsPage.NotificationItem)))
      (w : World NotificationsPage.State) :
  snd (NotificationsPage.load_resume false r w) = w.
Proof. destruct r, w; reflexivity. Qed.

(** The paginated feed has no such flag: the continuation of a load lowers
    the loading flag however the request has settled. *)
Lemma ReelsPaged_loadMore_always_updates (initial : bool)
      (r : Settled (Response (option ReelsPaged.Page.t)))
      (s : ReelsPaged.State) :
  exists l, calls_of (ReelsPaged.loadMore_resume initial r) s
            = (l ++ [SetState "loading"])%list.
Proof.
  unfold calls_of, run.
  destruct (ReelsPaged.settled_page r) as [e | data] eqn:E.
  - rewrite (loadMore_resume_failed initial r e _ E). cbn.
    now exists [SetState "err"; SetState "hasMore"].
  - rewrite (loadMore_resume_ok initial r data _ E). cbn.
    now exists [SetState "items"; SetState "cursor"; SetState "hasMore"].
Qed.

(** C9.  The simple reels view, the post feed and the notifications list
    drop the result of a request that settles after teardown.  The paginated
    feed does not: its handlers hold no liveness flag, so when the first page
    arrives after the component is gone, the continuation of [loadMore] still
    calls its four setters, and the continuation of a failed like still calls
    [setItems]. *)
Theorem ReelsPaged_updates_after_teardown :
  let arrived :=
    Resolved (Sample.response true 200 EmptyString
                (Sample.page [Sample.reel "a" None None] (Some "abc") None)) in
  let failed : Settled (Response unit) := Rejected (Error None) in
  updates (calls_of (ReelsClient.load_resume false (Resolved (Some [Sample.slide "a"])))
                    ReelsClient.initial_state) = []
  /\ updates (calls_of (ReelsPaged.loadMore_resume true arrived)
                       ReelsPaged.initial_state)
     = [SetState "items"; SetState "cursor"; SetState "hasMore";
        SetState "loading"]
  /\ ReelsPaged.items (state_after (ReelsPaged.loadMore_resume true arrived)
                                   ReelsPaged.initial_state)
     = [Sample.reel "a" None None]
  /\ updates (calls_of (ReelsPaged.onLike_resume "a" failed)
                       (Sample.loaded [Sample.reel "a" (Some true) (Some 1)]))
     = [SetState "items"].
Proof. cbv. auto. Qed.

End Teardown.

(* ===================================================================== *)
(** ** More on the like toggle                                            *)
(* ===================================================================== *)

Section LikeToggleMore.
Import ReelsPaged.

(** X1.  A toggle keeps the list in place: each reel keeps its identifier,
    date, caption, media, author and comment count, and a reel with another
    identifier is left exactly as it is. *)
Theorem toggleLike_touches_only_likes (reelId : string) (l : list Reel) :
  Forall2 (fun r r' =>
             id r' = id r /\ createdAt r' = createdAt r
             /\ caption r' = caption r /\ media r' = media r
             /\ author r' = author r /\ commentsCount r' = commentsCount r
             /\ (id r <> reelId -> r' = r))
          l (toggleLike reelId l).
Proof.
  induction l as [| r l IH]; cbn; constructor; [| exact IH].
  destruct (String.eqb_spec (id r) reelId) as [E | E]; cbn;
    repeat split; congruence.
Qed.

(** X2.  Toggles commute: the order in which the toggles of two likes are
    applied to the list does not matter. *)
Theorem toggleLike_comm (a b : string) (l : list Reel) :
  toggleLike a (toggleLike b l) = toggleLike b (toggleLike a l).
Proof.
  unfold toggleLike. rewrite !map_map. apply map_ext. intros r.
  destruct (String.eqb (id r) a) eqn:Ea, (String.eqb (id r) b) eqn:Eb;
    rewrite ?toggled_id, ?Ea, ?Eb; reflexivity.
Qed.

Lemma toggled_consistent (r : Reel) :
  count_nonneg r -> like_consistent (toggled r).
Proof.
  unfold count_nonneg, like_consistent.
  rewrite toggled_shownCount, toggled_shownLiked.
  destruct (shownLiked r); cbn [negb]; lia.
Qed.

(** X3.  On a reel whose count is not negative, only the first toggle can
    lose the count: from the toggled reel on, two more toggles give the
    toggled reel back. *)
Theorem toggled_thrice (r : Reel) :
  count_nonneg r ->
  toggled (toggled (toggled r)) = toggled r.
Proof.
  intros H. apply toggled_twice_present.
  - now apply toggled_consistent.
  - discriminate.
  - discriminate.
Qed.

Lemma toggled_thrice_witness :
  count_nonneg (Sample.reel "x" (Some true) (Some 0))
  /\ toggled (toggled (toggled (Sample.reel "x" (Some true) (Some 0))))
     = toggled (Sample.reel "x" (Some true) (Some 0)).
Proof.
  assert (H : count_nonneg (Sample.reel "x" (Some true) (Some 0)))
    by (unfold count_nonneg; cbn; lia).
  split; [exact H |].
  apply (toggled_thrice (Sample.reel "x" (Some true) (Some 0))). exact H.
Defined.

#[local] Arguments String.append : simpl never.

(** X4.  A like that passes the session check and whose request succeeds
    toggles the reel once, sends one request and does not navigate. *)
Theorem onLike_success_run {D} (me : Session) (reelId : string)
        (r : Settled (Response D)) (s : State) :
  negb (authed me) && negb (meLoading me) = false ->
  like_failed r = false ->
  items (state_after (onLike me reelId r) s) = toggleLike reelId (items s)
  /\ calls_of (onLike me reelId r) s
     = [SetState "items";
        Fetch "POST" ("/reels/" ++ reelId ++ "/like")%string []].
Proof.
  intros Hgate Hok. unfold state_after, calls_of, run.
  set (w := {| state := s; calls := [] |}).
  destruct (onLike_start_passes me reelId w Hgate) as (Hres & Hitems & Hcalls).
  destruct (onLike_start me reelId w) as [[e | sent] w1] eqn:E; cbn in Hres;
    [discriminate |].
  injection Hres as ->. cbn in Hitems, Hcalls.
  unfold onLike. rewrite (bind_inr _ _ _ _ _ E).
  rewrite (onLike_resume_ok reelId r w1 Hok). auto.
Qed.

Lemma onLike_success_run_witness :
  negb (authed Sample.signed_in) && negb (meLoading Sample.signed_in) = false
  /\ like_failed (Resolved (Sample.response true 200 EmptyString tt)) = false
  /\ items (state_after
              (onLike Sample.signed_in "x"
                      (Resolved (Sample.response true 200 EmptyString tt)))
              (Sample.loaded [Sample.reel "x" None None]))
     = toggleLike "x" [Sample.reel "x" None None].
Proof.
  split; [reflexivity |]. split; [reflexivity |].
  apply (onLike_success_run Sample.signed_in "x"
           (Resolved (Sample.response true 200 EmptyString tt))
           (Sample.loaded [Sample.reel "x" None None]));
    reflexivity.
Defined.

End LikeToggleMore.

(* ===================================================================== *)
(** ** More on the loader                                                 *)
(* ===================================================================== *)

Section LoaderMore.
Import ReelsPaged.

#[local] Arguments decimal : simpl never.

(** X5.  However the request of a later load settles, the reels loaded
    before stay at the front of the list, in order, and the loading flag is
    down afterwards. *)
Theorem loadMore_resume_appends
        (r : Settled (Response (option Page.t))) (s : State) :
  (exists tail,
      items (state_after (loadMore_resume false r) s)
      = (items s ++ tail)%list)
  /\ loading (state_after (loadMore_resume false r) s) = false.
Proof.
  unfold state_after, run.
  destruct (settled_page r) as [e | data] eqn:E.
  - rewrite (loadMore_resume_failed false r e _ E). cbn.
    split; [exists []; now rewrite app_nil_r | reflexivity].
  - rewrite (loadMore_resume_ok false r data _ E). cbn.
    split; [now exists (nextItems_of data) | reflexivity].
Qed.

(** X6.  An initial load whose page arrives starts afresh: the state it
    leaves is made of the page alone, with no error and the loading flag
    down, and keeps only the active index of the state before. *)
Theorem loadMore_initial_resets
        (r : Settled (Response (option Page.t))) (data : option Page.t)
        (s : State) :
  settled_page r = inr data ->
  state_after (loadMore true r) s
  = {| items := nextItems_of data;
       loading := false;
       cursor := nextCursor_of data;
       hasMore := nextHasMore_of data
                  && (0 <? Z.of_nat (List.length (nextItems_of data)));
       err := None;
       activeIndex := activeIndex s |}.
Proof.
  intros H. unfold state_after, run, loadMore.
  assert (E : forall w, loadMore_start true w
              = (inr tt,
                 {| state := {| items := items (state w); loading := true;
                                cursor := cursor (state w);
                                hasMore := hasMore (state w); err := None;
                                activeIndex := activeIndex (state w) |};
                    calls := (calls w ++ [SetState "err"; SetState "loading";
                                          Fetch "GET" "/reels" []])%list |})).
  { intros w. unfold loadMore_start, setErr, setLoading, bind, set, get, emit.
    cbn. now rewrite <- !app_assoc. }
  rewrite (bind_inr _ _ _ _ _ (E _)).
  now rewrite (loadMore_resume_ok true r data _ H).
Qed.

Lemma loadMore_initial_resets_witness :
  settled_page
    (Resolved (Sample.response true 200 EmptyString
                 (Sample.page [Sample.reel "b" None None] (Some "def") None)))
  = inr (Sample.page [Sample.reel "b" None None] (Some "def") None)
  /\ items (state_after
              (loadMore true
                 (Resolved (Sample.response true 200 EmptyString
                    (Sample.page [Sample.reel "b" None None] (Some "def") None))))
              (Sample.loaded [Sample.reel "a" None None]))
     = [Sample.reel "b" None None].
Proof.
  split; [reflexivity |].
  rewrite (loadMore_initial_resets
             (Resolved (Sample.response true 200 EmptyString
                (Sample.page [Sample.reel "b" None None] (Some "def") None)))
             (Sample.page [Sample.reel "b" None None] (Some "def") None)
             (Sample.loaded [Sample.reel "a" None None]) eq_refl).
  reflexivity.
Defined.

(** X7.  The cursor goes round: after a page that arrived, the request of
    the next later load carries the [nextCursor] of that page and nothing of
    the cursor before; when the page has no cursor, or an empty one, the
    request carries no cursor at all. *)
Theorem loadMore_cursor_round_trip (initial : bool)
        (r : Settled (Response (option Page.t))) (data : option Page.t)
        (s : State) :
  settled_page r = inr data ->
  fetches (calls_of (loadMore_start false)
                    (state_after (loadMore_resume initial r) s))
  = [Fetch "GET" "/reels"
           match nextCursor_of data with
           | Some c => if truthy_string c then [("cursor", c)] else []
           | None => []
           end].
Proof.
  intros H. unfold state_after at 1, calls_of, run.
  rewrite (loadMore_resume_ok initial r data _ H). cbn.
  destruct (nextCursor_of data) as [c |]; cbn; [| reflexivity].
  destruct (truthy_string c); reflexivity.
Qed.

Lemma loadMore_cursor_round_trip_witness :
  settled_page
    (Resolved (Sample.response true 200 EmptyString
                 (Sample.page [Sample.reel "b" None None] (Some "def") None)))
  = inr (Sample.page [Sample.reel "b" None None] (Some "def") None)
  /\ fetches (calls_of (loadMore_start false)
                (state_after
                   (loadMore_resume true
                      (Resolved (Sample.response true 200 EmptyString
                         (Sample.page [Sample.reel "b" None None] (Some "def")
                                      None))))
                   ReelsPaged.initial_state))
     = [Fetch "GET" "/reels" [("cursor", "def")]].
Proof.
  split; [reflexivity |].
  apply (loadMore_cursor_round_trip
           true
           (Resolved (Sample.response true 200 EmptyString
              (Sample.page [Sample.reel "b" None None] (Some "def") None)))
           (Sample.page [Sample.reel "b" None None] (Some "def") None)
           ReelsPaged.initial_state).
  reflexivity.
Defined.

Lemma or_string_http (t : string) (code : nat) :
  truthy_string (or_string (Some t) ("HTTP " ++ decimal code)) = true.
Proof.
  unfold or_string. destruct (truthy_string t) eqn:E; [exact E | reflexivity].
Qed.

(** X8.  After a response that is not ok, with no reel loaded: when the
    body text can be read, the stored message is never empty, the body text
    or else the status line, and the error view with the retry button is
    rendered; when reading the body is rejected, the message is that of the
    rejection, or the default when it has none, and the retry view is
    rendered only if that message is not empty: otherwise an empty feed is
    rendered, with no retry button. *)
Theorem loadMore_not_ok_shows_retry (initial : bool)
        (res : Response (option Page.t)) (s : State) :
  ok res = false ->
  items s = [] ->
  render (state_after (loadMore_resume initial (Resolved res)) s)
  = match text res with
    | Resolved t =>
        ErrorRetry (or_string (Some t) ("HTTP " ++ decimal (status res)))
    | Rejected e =>
        let msg := nullish (message e) "Error cargando reels" in
        if truthy_string msg then ErrorRetry msg else Feed [] false false
    end
  /\ forall t, or_string (Some t) ("HTTP " ++ decimal (status res))
               <> EmptyString.
Proof.
  intros Hok Hempty. split.
  - destruct (text res) as [t | e] eqn:Ht.
    + set (msg := or_string (Some t) ("HTTP " ++ decimal (status res))).
      assert (E : settled_page (Resolved res) = inl (Error (Some msg)))
        by (cbn; now rewrite Hok, Ht).
      rewrite (render_after_failure initial (Resolved res) _ s E), Hempty.
      cbn [message nullish]. unfold msg. now rewrite or_string_http.
    + assert (E : settled_page (Resolved res) = inl e)
        by (cbn; now rewrite Hok, Ht).
      now rewrite (render_after_failure initial (Resolved res) _ s E), Hempty.
  - intros t Heq.
    pose proof (or_string_http t (status res)) as T.
    rewrite Heq in T. discriminate.
Qed.

Lemma loadMore_not_ok_shows_retry_witness :
  ok (Sample.response false 503 EmptyString (None : option Page.t)) = false
  /\ render (state_after
               (loadMore_resume true
                  (Resolved (Sample.response false 503 EmptyString None)))
               ReelsPaged.initial_state)
     = ErrorRetry "HTTP 503".
Proof.
  split; [reflexivity |].
  apply (loadMore_not_ok_shows_retry
           true (Sample.response false 503 EmptyString None)
           ReelsPaged.initial_state);
    reflexivity.
Defined.

End LoaderMore.

(* ===================================================================== *)
(** ** More on the scroll handler                                         *)
(* ===================================================================== *)

Section ScrollMore.
Import ReelsPaged.

(** The whole effect of a scroll event. *)
Lemma onScroll_effect (children : list Z) (top : Q) (w : World State) :
  onScroll children top w
  = (inr tt,
     {| state :=
          {| items := items (state w);
             loading := loading (state w);
             cursor := cursor (state w);
             hasMore := hasMore (state w);
             err := if triggers children top (state w) then None
                    else err (state w);
             activeIndex := match children with
                            | [] => activeIndex (state w)
                            | _ :: _ => bestIdx_of children top
                            end |};
        calls := (calls w
                  ++ match children with
                     | [] => []
                     | _ :: _ => [SetState "activeIndex"]
                     end
                  ++ if triggers children top (state w)
                     then [SetState "err";
                           Fetch "GET" "/reels" (more_query (state w))]
                     else [])%list |}).
Proof.
  unfold triggers, near_end, onScroll.
  destruct children as [| c cs].
  - cbn. rewrite app_nil_r. now destruct w as [[? ? ? ? ? ?] ?].
  - unfold setActiveIndex, loadMore_start, setErr, bind, set, get, emit, ret,
      more_query.
    cbn [state calls hasMore loading cursor items err activeIndex].
    destruct (hasMore (state w)), (loading (state w)),
      (Z.of_nat (List.length (c :: cs)) - 2
       <=? Z.of_nat (bestIdx_of (c :: cs) top));
      cbn; rewrite <- ?app_assoc; reflexivity.
Qed.

Lemma bestIdx_of_lt (children : list Z) (top : Q) :
  children <> [] ->
  (bestIdx_of children top < List.length children)%nat.
Proof.
  intros Hne. destruct (bestIdx_of_nearest children top Hne) as (c & Hc & _).
  apply nth_error_Some. congruence.
Qed.

(** X9.  After a scroll event over the rendered reels, one node per loaded
    reel and at least one, the active index names a loaded reel: the active
    reel is defined. *)
Theorem onScroll_active_defined (children : list Z) (top : Q) (s : State) :
  children <> [] ->
  List.length children = List.length (items s) ->
  active (state_after (onScroll children top) s) <> None.
Proof.
  intros Hne Hlen. unfold state_after, run, active.
  rewrite onScroll_effect. cbn.
  destruct children as [| c cs]; [congruence |].
  apply nth_error_Some. rewrite <- Hlen. now apply bestIdx_of_lt.
Qed.

Lemma onScroll_active_defined_witness :
  [0; 600] <> []
  /\ List.length [0; 600]
     = List.length (items (Sample.loaded [Sample.reel "a" None None;
                                          Sample.reel "b" None None]))
  /\ active (state_after (onScroll [0; 600] (450 # 1))
                         (Sample.loaded [Sample.reel "a" None None;
                                         Sample.reel "b" None None]))
     <> None.
Proof.
  split; [discriminate |]. split; [reflexivity |].
  apply (onScroll_active_defined
           [0; 600] (450 # 1)
           (Sample.loaded [Sample.reel "a" None None;
                           Sample.reel "b" None None]));
    [discriminate | reflexivity].
Defined.

(** X10.  Over a feed of one or two rendered reels every position is near
    the end: while more pages are expected and the loading flag is down,
    each scroll event sends a request for the next page, wherever the
    scroll position is. *)
Theorem onScroll_short_feed_always_requests
        (children : list Z) (top : Q) (s : State) :
  children <> [] ->
  (List.length children <= 2)%nat ->
  hasMore s = true ->
  loading s = false ->
  fetches (calls_of (onScroll children top) s)
  = [Fetch "GET" "/reels" (more_query s)].
Proof.
  intros Hne Hlen Hmore Hload. unfold calls_of, run.
  rewrite onScroll_effect. cbn [snd calls state].
  assert (T : triggers children top s = true).
  { unfold triggers. rewrite Hmore, Hload.
    unfold near_end. destruct children as [| c cs]; [congruence |].
    cbn [andb negb]. rewrite !andb_true_r. apply Z.leb_le. lia. }
  rewrite T. destruct children; [congruence | reflexivity].
Qed.

Lemma onScroll_short_feed_always_requests_witness :
  [0] <> []
  /\ (List.length [0] <= 2)%nat
  /\ fetches (calls_of (onScroll [0] (0 # 1))
                       (Sample.loaded [Sample.reel "a" None None]))
     = [Fetch "GET" "/reels" [("cursor", "abc")]].
Proof.
  split; [discriminate |]. split; [cbn; lia |].
  apply (onScroll_short_feed_always_requests
           [0] (0 # 1) (Sample.loaded [Sample.reel "a" None None]));
    [discriminate | cbn; lia | reflexivity | reflexivity].
Defined.

(** A run of scroll events near the end, from any record of calls. *)
Lemma scrolls_near_end (events : list (list Z * Q)) (w : World State) :
  hasMore (state w) = true ->
  loading (state w) = false ->
  forallb (fun e => near_end (fst e) (snd e)) events = true ->
  let w' := snd (scrolls events w) in
  fetches (calls w')
  = (fetches (calls w)
     ++ repeat (Fetch "GET" "/reels" (more_query (state w)))
               (List.length events))%list
  /\ items (state w') = items (state w).
Proof.
  revert w. induction events as [| [children top] rest IH];
    intros w Hmore Hload Hnear.
  - cbn. now rewrite app_nil_r.
  - cbn [forallb fst snd] in Hnear. apply andb_prop in Hnear.
    destruct Hnear as [Hn Hrest].
    cbn [scrolls]. rewrite (bind_inr _ _ _ _ _ (onScroll_effect children top w)).
    assert (T : triggers children top (state w) = true)
      by (unfold triggers; now rewrite Hn, Hmore, Hload).
    rewrite T.
    match goal with |- context [scrolls rest ?w1] =>
      destruct (IH w1 Hmore Hload Hrest) as [Hf Hi] end.
    cbn [state calls items] in Hf, Hi. cbn zeta. rewrite Hf, Hi.
    split; [| reflexivity].
    rewrite !fetches_app.
    assert (Hq : forall i, more_query
                   {| items := items (state w); loading := loading (state w);
                      cursor := cursor (state w); hasMore := hasMore (state w);
                      err := None; activeIndex := i |}
                 = more_query (state w)) by reflexivity.
    rewrite Hq.
    destruct children; [discriminate |].
    cbn [fetches filter is_fetch is_set app List.length repeat].
    now rewrite <- app_assoc.
Qed.

(** X11.  Later loads are not coalesced: a later load does not raise the
    loading flag, so while more pages are expected every scroll event near
    the end sends its own request, each with the same cursor. *)
Theorem scrolls_near_end_requests (events : list (list Z * Q)) (s : State) :
  hasMore s = true ->
  loading s = false ->
  forallb (fun e => near_end (fst e) (snd e)) events = true ->
  fetches (calls_of (scrolls events) s)
  = repeat (Fetch "GET" "/reels" (more_query s)) (List.length events).
Proof.
  intros Hmore Hload Hnear. unfold calls_of, run.
  now destruct (scrolls_near_end events {| state := s; calls := [] |}
                                 Hmore Hload Hnear) as [-> _].
Qed.

Lemma scrolls_near_end_requests_witness :
  hasMore (Sample.loaded [Sample.reel "a" None None]) = true
  /\ fetches (calls_of (scrolls [([0], 0%Q); ([0], 0%Q)])
                       (Sample.loaded [Sample.reel "a" None None]))
     = [Fetch "GET" "/reels" [("cursor", "abc")];
        Fetch "GET" "/reels" [("cursor", "abc")]].
Proof.
  split; [reflexivity |].
  apply (scrolls_near_end_requests
           [([0], 0%Q); ([0], 0%Q)]
           (Sample.loaded [Sample.reel "a" None None]));
    reflexivity.
Defined.

End ScrollMore.

(* ===================================================================== *)
(** ** The paginated feed through its events                              *)
(* ===================================================================== *)

Section Runs.
Import ReelsPaged ReelsRun.

#[local] Arguments String.append : simpl never.

Lemma onLike_start_state (me : Session) (reelId : string) (w : World State) :
  state (snd (onLike_start me reelId w))
  = with_items (if negb (authed me) && negb (meLoading me)
                then items (state w)
                else toggleLike reelId (items (state w)))
               (state w).
Proof.
  unfold onLike_start, requireAuth, setItems, bind, set, emit, ret, with_items.
  destruct (negb (authed me) && negb (meLoading me)); cbn;
    [now destruct w as [[? ? ? ? ? ?] ?] | reflexivity].
Qed.

Lemma onLike_resume_state {D} (reelId : string) (r : Settled (Response D))
      (w : World State) :
  state (snd (onLike_resume reelId r w))
  = with_items (if like_failed r then toggleLike reelId (items (state w))
                else items (state w))
               (state w).
Proof.
  unfold onLike_resume, try_catch, try_catch_finally, setItems, bind, await,
    set, ret, throw, with_items.
  destruct r as [res | e]; cbn; [destruct (ok res); cbn |]; try reflexivity.
  now destruct w as [[? ? ? ? ? ?] ?].
Qed.

Lemma toggleLike_ids (reelId : string) (l : list Reel) :
  map id (toggleLike reelId l) = map id l.
Proof.
  unfold toggleLike. rewrite map_map. apply map_ext. intros r.
  destruct (String.eqb (id r) reelId); reflexivity.
Qed.

Lemma map_id_nil (l : list Reel) : map id l = [] <-> l = [].
Proof. destruct l; cbn; split; congruence. Qed.

Lemma retry_shown_inv (s : State) :
  retry_shown s = true -> items s = [] /\ loading s = false.
Proof.
  unfold retry_shown, render.
  destruct (items s) as [| r l]; cbn.
  - destruct (loading s); cbn; [discriminate | auto].
  - rewrite !andb_false_r. discriminate.
Qed.

Lemma In_remove_at {A} (x : A) (n : nat) (l : list A) :
  In x (remove_at n l) -> In x l.
Proof.
  unfold remove_at. intros H. apply in_app_or in H.
  rewrite <- (firstn_skipn n l). apply in_or_app.
  destruct H as [H | H]; [now left | right].
  rewrite <- (firstn_skipn 1 (skipn n l)), skipn_skipn.
  apply in_or_app. now right.
Qed.

Lemma bools_nil (l : list bool) : ~ In true l -> ~ In false l -> l = [].
Proof.
  destruct l as [| [|] l]; cbn; intros H1 H2; [reflexivity | |];
    exfalso; auto.
Qed.

Lemma loadMore_start_true (w : World State) :
  loadMore_start true w
  = (inr tt,
     {| state := {| items := items (state w); loading := true;
                    cursor := cursor (state w);
                    hasMore := hasMore (state w); err := None;
                    activeIndex := activeIndex (state w) |};
        calls := (calls w ++ [SetState "err"; SetState "loading";
                              Fetch "GET" "/reels" []])%list |}).
Proof.
  unfold loadMore_start, setErr, setLoading, bind, set, get, emit.
  cbn. now rewrite <- !app_assoc.
Qed.

(** What one event does to the loaded reels, the loading flag and the loads
    in flight. *)
Lemma step_cases (e : Event) (y y' : Sys) :
  step e y = Some y' ->
  match e with
  | Scroll children top =>
      items (comp y') = items (comp y)
      /\ loading (comp y') = loading (comp y)
      /\ ((loads y' = loads y)
          \/ (loads y' = (loads y ++ [false])%list
              /\ items (comp y) <> [] /\ loading (comp y) = false))
  | Retry =>
      items (comp y) = [] /\ loading (comp y) = false
      /\ items (comp y') = [] /\ loading (comp y') = true
      /\ loads y' = (loads y ++ [true])%list
  | LoadSettled n r =>
      exists initial,
        nth_error (loads y) n = Some initial
        /\ loads y' = remove_at n (loads y)
        /\ loading (comp y') = false
        /\ exists tail,
             items (comp y')
             = ((if initial then [] else items (comp y)) ++ tail)%list
  | LikeClick _ _ | LikeSettled _ _ =>
      loads y' = loads y
      /\ loading (comp y') = loading (comp y)
      /\ exists reelId,
           items (comp y') = items (comp y)
           \/ items (comp y') = toggleLike reelId (items (comp y))
  end.
Proof.
  destruct e as [children top | | n r | me reelId | n r]; cbn [step]; intros H.
  - destruct (feed_shown (comp y)
              && (List.length children =? List.length (items (comp y)))%nat)
      eqn:G; [| discriminate].
    apply andb_prop in G. destruct G as [_ Hlen]. apply Nat.eqb_eq in Hlen.
    injection H as <-. unfold run. rewrite onScroll_effect.
    cbn [snd state calls comp loads items loading app].
    split; [reflexivity |]. split; [reflexivity |].
    destruct (triggers children top (comp y)) eqn:T.
    + right. unfold triggers in T.
      apply andb_prop in T. destruct T as [T Hl].
      apply andb_prop in T. destruct T as [Hn _].
      apply negb_true_iff in Hl.
      destruct children as [| c cs]; [discriminate |].
      repeat split; [| exact Hl].
      intros E. rewrite E in Hlen. discriminate.
    + left. destruct children; cbn; now rewrite app_nil_r.
  - destruct (retry_shown (comp y)) eqn:G; [| discriminate].
    destruct (retry_shown_inv _ G) as [Hi Hl].
    injection H as <-. cbn. auto.
  - destruct (nth_error (loads y) n) as [initial |] eqn:E; [| discriminate].
    injection H as <-. exists initial. cbn [comp loads].
    split; [reflexivity |]. split; [reflexivity |].
    unfold state_after, run.
    destruct (settled_page r) as [e | data] eqn:S.
    + rewrite (loadMore_resume_failed initial r e _ S). cbn.
      split; [reflexivity |].
      destruct initial; [now exists (items (comp y)) |].
      exists []. now rewrite app_nil_r.
    + rewrite (loadMore_resume_ok initial r data _ S). cbn.
      split; [reflexivity |]. exists (nextItems_of data).
      now destruct initial.
  - destruct (feed_shown (comp y) && has_button reelId (comp y));
      [| discriminate].
    injection H as <-. cbn [comp loads]. unfold run.
    rewrite onLike_start_state. cbn.
    repeat split. exists reelId.
    destruct (negb (authed me) && negb (meLoading me)); auto.
  - destruct (nth_error (likes y) n) as [reelId |]; [| discriminate].
    injection H as <-. cbn [comp loads]. unfold state_after, run.
    rewrite onLike_resume_state. cbn.
    repeat split. exists reelId. destruct (like_failed r); auto.
Qed.

Lemma step_inv (e : Event) (y y' : Sys) :
  Inv y -> step e y = Some y' -> Inv y'.
Proof.
  intros (I1 & I2 & I3) H. apply step_cases in H. unfold Inv.
  destruct e as [children top | | n r | me reelId | n r].
  - destruct H as (Hi & Hl & [Hq | (Hq & Hne & Hlf)]); rewrite Hi, Hl, Hq.
    + auto.
    + assert (Hnt : ~ In true (loads y)).
      { intros Ht. destruct (I1 Ht) as (E & _). contradiction. }
      split; [| split].
      * intros Ht. exfalso. apply in_app_or in Ht.
        destruct Ht as [Ht | [Ht | []]]; [contradiction | discriminate].
      * intros _. exact Hlf.
      * intros _. exact Hne.
  - destruct H as (Hi & Hl & Hi' & Hl' & Hq).
    assert (Hnil : loads y = []).
    { apply bools_nil.
      - intros Ht. destruct (I1 Ht) as (_ & E & _). congruence.
      - intros Hf. now apply (I3 Hf). }
    rewrite Hq, Hnil, Hi', Hl'. cbn.
    split; [| split].
    + auto.
    + intros Hn. exfalso. apply Hn. now left.
    + intros [Hf | []]. discriminate.
  - destruct H as (initial & Hn & Hq & Hl & tail & Hi).
    rewrite Hq, Hl.
    destruct initial.
    + assert (Ht : In true (loads y)) by (eapply nth_error_In; eauto).
      destruct (I1 Ht) as (_ & _ & E).
      rewrite E in Hn |- *.
      destruct n as [| n]; [| destruct n; discriminate].
      cbn. split; [| split]; [intros [] | reflexivity | intros []].
    + assert (Hf : In false (loads y)) by (eapply nth_error_In; eauto).
      assert (Hnt : ~ In true (loads y)).
      { intros Ht. destruct (I1 Ht) as (_ & _ & E). rewrite E in Hf.
        destruct Hf as [Hf | []]. discriminate. }
      assert (Hne : items (comp y') <> []).
      { rewrite Hi. intros E. apply app_eq_nil in E. now apply (I3 Hf). }
      split; [| split].
      * intros Ht. apply In_remove_at in Ht. contradiction.
      * reflexivity.
      * intros _. exact Hne.
  - destruct H as (Hq & Hl & i & Hi). rewrite Hq, Hl.
    assert (Hnil : items (comp y') = [] <-> items (comp y) = []).
    { destruct Hi as [-> | ->]; [reflexivity |].
      rewrite <- !map_id_nil, toggleLike_ids. reflexivity. }
    split; [| split].
    + intros Ht. destruct (I1 Ht) as (E1 & E2 & E3).
      split; [now apply Hnil | auto].
    + exact I2.
    + intros Hf E. apply (I3 Hf). now apply Hnil.
  - destruct H as (Hq & Hl & i & Hi). rewrite Hq, Hl.
    assert (Hnil : items (comp y') = [] <-> items (comp y) = []).
    { destruct Hi as [-> | ->]; [reflexivity |].
      rewrite <- !map_id_nil, toggleLike_ids. reflexivity. }
    split; [| split].
    + intros Ht. destruct (I1 Ht) as (E1 & E2 & E3).
      split; [now apply Hnil | auto].
    + exact I2.
    + intros Hf E. apply (I3 Hf). now apply Hnil.
Qed.

Lemma mounted_inv : Inv mounted.
Proof.
  unfold Inv, mounted. cbn. repeat split; auto.
  - intros H. exfalso. apply H. now left.
  - intros [H | []]. discriminate.
Qed.

Lemma steps_inv (events : list Event) (y y' : Sys) :
  Inv y -> steps events y = Some y' -> Inv y'.
Proof.
  revert y. induction events as [| e rest IH]; intros y Hy H; cbn in H.
  - now injection H as <-.
  - destruct (step e y) as [y1 |] eqn:E; [| discriminate].
    eapply IH; [eapply step_inv; eauto | exact H].
Qed.

Lemma step_ids (e : Event) (y y' : Sys) :
  Inv y -> step e y = Some y' ->
  exists tail, ids y' = (ids y ++ tail)%list.
Proof.
  intros (I1 & _ & _) H. apply step_cases in H. unfold ids.
  destruct e as [children top | | n r | me reelId | n r].
  - destruct H as (-> & _). exists []. now rewrite app_nil_r.
  - destruct H as (-> & _ & -> & _). now exists [].
  - destruct H as (initial & Hn & _ & _ & tail & ->).
    exists (map id tail). rewrite map_app. f_equal.
    destruct initial; [| reflexivity].
    assert (Ht : In true (loads y)) by (eapply nth_error_In; eauto).
    destruct (I1 Ht) as (-> & _). reflexivity.
  - destruct H as (_ & _ & i & [-> | ->]); exists [];
      now rewrite ?toggleLike_ids, app_nil_r.
  - destruct H as (_ & _ & i & [-> | ->]); exists [];
      now rewrite ?toggleLike_ids, app_nil_r.
Qed.

Lemma steps_ids (events : list Event) (y y' : Sys) :
  Inv y -> steps events y = Some y' ->
  exists tail, ids y' = (ids y ++ tail)%list.
Proof.
  revert y. induction events as [| e rest IH]; intros y Hy H; cbn in H.
  - injection H as <-. exists []. now rewrite app_nil_r.
  - destruct (step e y) as [y1 |] eqn:E; [| discriminate].
    destruct (step_ids e y y1 Hy E) as [t1 H1].
    destruct (IH y1 (step_inv e y y1 Hy E) H) as [t2 H2].
    exists (t1 ++ t2)%list. now rewrite H2, H1, app_assoc.
Qed.

(** X12.  Through any run from mount, the loading flag is up exactly while
    the initial load or a retry is in flight; such a load is then the only
    load in flight; and the retry button is shown only when no load is in
    flight. *)
Theorem loading_tracks_initial_load (events : list Event) (y : Sys) :
  steps events mounted = Some y ->
  (loading (comp y) = true <-> In true (loads y))
  /\ (In true (loads y) -> loads y = [true])
  /\ (retry_shown (comp y) = true -> loads y = []).
Proof.
  intros H. destruct (steps_inv events mounted y mounted_inv H) as (I1 & I2 & I3).
  split; [split |]; [| | split].
  - intros Hl. destruct (in_dec Bool.bool_dec true (loads y)) as [Hin | Hn];
      [exact Hin |]. rewrite (I2 Hn) in Hl. discriminate.
  - intros Hin. now destruct (I1 Hin) as (_ & E & _).
  - intros Hin. now destruct (I1 Hin) as (_ & _ & E).
  - intros G. destruct (retry_shown_inv _ G) as [Hi Hl].
    apply bools_nil.
    + intros Ht. destruct (I1 Ht) as (_ & E & _). congruence.
    + intros Hf. now apply (I3 Hf).
Qed.

Lemma loading_tracks_initial_load_witness :
  exists y,
    steps Sample.sample_run mounted = Some y
    /\ (loading (comp y) = true <-> In true (loads y)).
Proof.
  eexists. split; [vm_compute; reflexivity |].
  apply (loading_tracks_initial_load Sample.sample_run).
  vm_compute; reflexivity.
Defined.

(** X13.  Through any run from mount the loaded reels only grow at the end:
    the identifiers loaded at some point stay, in their order, at the front
    of the list ever after. *)
Theorem loaded_ids_only_grow (events more : list Event) (y y' : Sys) :
  steps events mounted = Some y ->
  steps more y = Some y' ->
  exists tail, ids y' = (ids y ++ tail)%list.
Proof.
  intros H H'. eapply steps_ids; [| exact H'].
  eapply steps_inv; [exact mounted_inv | exact H].
Qed.

Lemma loaded_ids_only_grow_witness :
  exists y y',
    steps (firstn 3 Sample.sample_run) mounted = Some y
    /\ steps (skipn 3 Sample.sample_run) y = Some y'
    /\ exists tail, ids y' = (ids y ++ tail)%list.
Proof.
  eexists. eexists.
  split; [vm_compute; reflexivity |]. split; [vm_compute; reflexivity |].
  eapply (loaded_ids_only_grow (firstn 3 Sample.sample_run)
                               (skipn 3 Sample.sample_run));
    vm_compute; reflexivity.
Defined.

(** X14.  Once a reel is loaded, the feed stays on screen: whatever happens
    next, the loading screen and the error view are not rendered again, and
    the loading flag stays down. *)
Theorem feed_stays_shown (events more : list Event) (y y' : Sys) :
  steps events mounted = Some y ->
  items (comp y) <> [] ->
  steps more y = Some y' ->
  render (comp y')
  = Feed (items (comp y')) false (negb (hasMore (comp y')))
  /\ items (comp y') <> [].
Proof.
  intros H Hne H'.
  pose proof (steps_inv events mounted y mounted_inv H) as Hy.
  destruct (steps_ids more y y' Hy H') as [tail Hids].
  destruct (steps_inv more y y' Hy H') as (I1 & I2 & _).
  assert (Hne' : items (comp y') <> []).
  { intros E. unfold ids in Hids. rewrite E in Hids. cbn in Hids.
    symmetry in Hids. apply app_eq_nil in Hids. destruct Hids as [Hids _].
    apply map_id_nil in Hids. contradiction. }
  assert (Hl : loading (comp y') = false).
  { apply I2. intros Ht. now destruct (I1 Ht) as (E & _). }
  split; [| exact Hne'].
  unfold render. rewrite Hl.
  destruct (items (comp y')) as [| r l]; [congruence |].
  cbn. now rewrite !andb_false_r, andb_true_r.
Qed.

Lemma feed_stays_shown_witness :
  exists y y',
    steps (firstn 3 Sample.sample_run) mounted = Some y
    /\ items (comp y) <> []
    /\ steps (skipn 3 Sample.sample_run) y = Some y'
    /\ items (comp y') <> [].
Proof.
  eexists. eexists.
  split; [vm_compute; reflexivity |]. split; [discriminate |].
  split; [vm_compute; reflexivity |].
  eapply (feed_stays_shown (firstn 3 Sample.sample_run)
                           (skipn 3 Sample.sample_run));
    [vm_compute; reflexivity | discriminate | vm_compute; reflexivity].
Defined.

End Runs.

(* ===================================================================== *)
(** ** The simple reels view                                              *)
(* ===================================================================== *)

Section SimpleReels.
Import ReelsClient.

Lemma ReelsClient_onScroll_effect (innerHeight : Z) (top : Q)
      (w : World State) :
  onScroll innerHeight top w
  = (inr tt,
     {| state :=
          {| items := items (state w); loading := loading (state w);
             err := err (state w);
             activeIndex :=
               Z.max 0 (Z.min (Math_round
                                 (top / inject_Z (if innerHeight =? 0 then 1
                                                  else innerHeight)))
                              (Z.of_nat (List.length (items (state w))) - 1)) |};
        calls := (calls w ++ [SetState "activeIndex"])%list |}).
Proof. reflexivity. Qed.

Lemma ReelsClient_scrolls_range (events : list (Z * Q)) (w : World State) :
  events <> [] ->
  let s' := state (snd (scrolls events w)) in
  items s' = items (state w)
  /\ 0 <= activeIndex s'
  /\ (items (state w) <> [] ->
      activeIndex s' < Z.of_nat (List.length (items (state w)))).
Proof.
  revert w. induction events as [| [h top] rest IH]; intros w Hne;
    [congruence |].
  cbn [scrolls]. rewrite (bind_inr _ _ _ _ _ (ReelsClient_onScroll_effect h top w)).
  destruct rest as [| e rest'].
  - cbn. split; [reflexivity |]. split; [lia |].
    intros Hi. destruct (items (state w)); [congruence |]. cbn [List.length]. lia.
  - match goal with |- context [scrolls (e :: rest') ?w1] =>
      specialize (IH w1 ltac:(discriminate)) end.
    exact IH.
Qed.

(** X15.  After any scroll events, whatever the viewport height (zero
    included) and the scroll positions, the active index of the simple view
    is not negative and, when reels are loaded, names one of them; the events
    leave the reels alone. *)
Theorem ReelsClient_active_in_range (events : list (Z * Q)) (s : State) :
  events <> [] ->
  items (state_after (scrolls events) s) = items s
  /\ 0 <= activeIndex (state_after (scrolls events) s)
  /\ (items s <> [] ->
      activeIndex (state_after (scrolls events) s)
      < Z.of_nat (List.length (items s))).
Proof.
  intros H. unfold state_after, run.
  exact (ReelsClient_scrolls_range events {| state := s; calls := [] |} H).
Qed.

Lemma ReelsClient_active_in_range_witness :
  [(0, (-5 # 1)%Q); (700, (2000 # 3)%Q)] <> []
  /\ 0 <= activeIndex
            (state_after (scrolls [(0, (-5 # 1)%Q); (700, (2000 # 3)%Q)])
                         (Sample.slides [Sample.slide "a"; Sample.slide "b"])).
Proof.
  split; [discriminate |].
  apply (ReelsClient_active_in_range
           [(0, (-5 # 1)%Q); (700, (2000 # 3)%Q)]
           (Sample.slides [Sample.slide "a"; Sample.slide "b"])).
  discriminate.
Defined.

(** The rounded quotient is within half a unit of the quotient. *)
Lemma Math_round_near (x : Q) :
  (inject_Z (Math_round x) <= x + (1 # 2))%Q
  /\ (x - (1 # 2) < inject_Z (Math_round x))%Q.
Proof.
  unfold Math_round.
  pose proof (Qfloor_le (x + (1 # 2))) as Hle.
  pose proof (Qlt_floor (x + (1 # 2))) as Hlt.
  rewrite inject_Z_plus in Hlt. change (inject_Z 1) with 1%Q in Hlt.
  split; lra.
Qed.

(** X16.  With slides of height [h] laid out at the multiples of [h], a
    scroll position within the slides resolves to a slide at most half a
    slide away. *)
Theorem ReelsClient_onScroll_nearest (h : Z) (top : Q) (s : State) :
  0 < h ->
  (0 <= top)%Q ->
  (top <= inject_Z ((Z.of_nat (List.length (items s)) - 1) * h))%Q ->
  let i := activeIndex (state_after (onScroll h top) s) in
  (Qabs (inject_Z (i * h) - top) <= inject_Z h / 2)%Q.
Proof.
  intros Hh H0 Hmax i.
  assert (HhQ : (0 < inject_Z h)%Q).
  { change 0%Q with (inject_Z 0). now rewrite <- Zlt_Qlt. }
  set (n := Z.of_nat (List.length (items s))) in *.
  set (x := (top / inject_Z h)%Q).
  assert (Hx : (top == x * inject_Z h)%Q).
  { unfold x. field. lra. }
  rewrite inject_Z_mult in Hmax.
  assert (Hx0 : (0 <= x)%Q) by nra.
  assert (Hxn : (x <= inject_Z (n - 1))%Q) by nra.
  destruct (Math_round_near x) as [Hle Hlt].
  assert (Hi : i = Math_round x).
  { subst i. unfold state_after, run.
    rewrite ReelsClient_onScroll_effect. cbn [snd state activeIndex items].
    replace (h =? 0) with false by (symmetry; apply Z.eqb_neq; lia).
    fold n. fold x.
    assert (H1 : (inject_Z (-1) < inject_Z (Math_round x))%Q)
      by (change (inject_Z (-1)) with (-1 # 1)%Q; lra).
    assert (H2 : (inject_Z (Math_round x) < inject_Z n)%Q).
    { replace (n - 1) with (n + -1) in Hxn by lia.
      rewrite inject_Z_plus in Hxn.
      change (inject_Z (-1)) with (-1 # 1)%Q in Hxn. lra. }
    rewrite <- Zlt_Qlt in H1, H2. lia. }
  rewrite Hi, inject_Z_mult, Hx.
  assert (P1 : (0 <= (x + (1 # 2) - inject_Z (Math_round x)) * inject_Z h)%Q)
    by (apply Qmult_le_0_compat; lra).
  assert (P2 : (0 <= (inject_Z (Math_round x) - (x - (1 # 2))) * inject_Z h)%Q)
    by (apply Qmult_le_0_compat; lra).
  assert (E : (inject_Z h / 2 == inject_Z h * (1 # 2))%Q) by field.
  rewrite E. apply Qabs_Qle_condition. split; lra.
Qed.

Lemma ReelsClient_onScroll_nearest_witness :
  0 < 100
  /\ (Qabs (inject_Z
              (activeIndex
                 (state_after (onScroll 100 (149 # 1))
                    (Sample.slides [Sample.slide "a"; Sample.slide "b";
                                    Sample.slide "c"]))
               * 100)
            - (149 # 1))
      <= inject_Z 100 / 2)%Q.
Proof.
  split; [lia |].
  apply (ReelsClient_onScroll_nearest
           100 (149 # 1)
           (Sample.slides [Sample.slide "a"; Sample.slide "b";
                           Sample.slide "c"]));
    [lia | vm_compute; discriminate | vm_compute; discriminate].
Defined.

Lemma or_string_truthy (m : option string) (d : string) :
  truthy_string d = true -> truthy_string (or_string m d) = true.
Proof.
  intros Hd. unfold or_string. destruct m as [x |]; [| exact Hd].
  destruct (truthy_string x) eqn:E; [exact E | exact Hd].
Qed.

(** X17.  What the simple view shows once its load has settled while
    mounted: the slides, or the empty notice when the page has no array or
    an empty one, after a success, whatever was shown before; after a
    failure the error view, whose text is never empty.  The loading screen
    is gone in each case. *)
Theorem ReelsClient_load_view (r : Settled (option (list Reel))) (s : State) :
  render false (state_after (load true r) s)
  = match r with
    | Resolved data_items =>
        match nullish data_items [] with
        | [] => NoReels
        | _ :: _ => Slides (nullish data_items []) (activeIndex s)
        end
    | Rejected e => ErrorReload (or_string (message e) "Error cargando reels")
    end
  /\ forall e, r = Rejected e ->
               or_string (message e) "Error cargando reels" <> EmptyString.
Proof.
  split.
  - destruct r as [d | e]; unfold render; cbn.
    + reflexivity.
    + now rewrite (or_string_truthy (message e) "Error cargando reels" eq_refl).
  - intros e _ H.
    pose proof (or_string_truthy (message e) "Error cargando reels" eq_refl) as T.
    rewrite H in T. discriminate.
Qed.

End SimpleReels.

(* ===================================================================== *)
(** ** Class names                                                        *)
(* ===================================================================== *)

Section ClassNames.
Import ReelsClient.

Lemma append_assoc' (a b c : string) :
  ((a ++ b) ++ c)%string = (a ++ b ++ c)%string.
Proof. induction a as [| ch a IH]; cbn; [reflexivity | now rewrite IH]. Qed.

Lemma filter_Boolean_app (l1 l2 : list (option string)) :
  filter_Boolean (l1 ++ l2) = (filter_Boolean l1 ++ filter_Boolean l2)%list.
Proof.
  induction l1 as [| [x |] l1 IH]; cbn; [reflexivity | | exact IH].
  destruct (truthy_string x); cbn; now rewrite IH.
Qed.

Lemma filter_Boolean_truthy (l : list (option string)) :
  Forall (fun x => truthy_string x = true) (filter_Boolean l).
Proof.
  induction l as [| [x |] l IH]; cbn; [constructor | | exact IH].
  destruct (truthy_string x) eqn:E; [constructor; assumption | exact IH].
Qed.

Lemma join_cons (sep x y : string) (l : list string) :
  join sep (x :: y :: l) = (x ++ sep ++ join sep (y :: l))%string.
Proof. reflexivity. Qed.

Lemma join_app (sep : string) (l1 l2 : list string) :
  l1 <> [] -> l2 <> [] ->
  join sep (l1 ++ l2) = (join sep l1 ++ sep ++ join sep l2)%string.
Proof.
  intros H1 H2. induction l1 as [| x l1 IH]; [congruence |].
  destruct l1 as [| y l1].
  - destruct l2 as [| z l2]; [congruence | reflexivity].
  - change ((x :: y :: l1) ++ l2)%list with (x :: y :: (l1 ++ l2))%list.
    rewrite !join_cons.
    change (y :: (l1 ++ l2))%list with ((y :: l1) ++ l2)%list.
    rewrite IH by discriminate. now rewrite !append_assoc'.
Qed.

Lemma join_truthy (sep : string) (l : list string) :
  Forall (fun x => truthy_string x = true) l ->
  truthy_string (join sep l) = negb (match l with [] => true | _ => false end).
Proof.
  intros H. destruct H as [| x l Hx _]; [reflexivity |].
  destruct x as [| ch x]; [discriminate |].
  destruct l; reflexivity.
Qed.

(** X18.  [cn] drops the parts that are falsy, the empty string included,
    and they leave no separator behind: the class of two lists of parts put
    together is the two classes joined by one space, or the one that is not
    empty, or empty. *)
Theorem cn_app (l1 l2 : list (option string)) :
  cn (l1 ++ l2)
  = if negb (truthy_string (cn l1)) then cn l2
    else if negb (truthy_string (cn l2)) then cn l1
         else (cn l1 ++ " " ++ cn l2)%string.
Proof.
  unfold cn. rewrite filter_Boolean_app.
  rewrite !join_truthy by apply filter_Boolean_truthy.
  destruct (filter_Boolean l1) as [| x a] eqn:E1; cbn [negb].
  - reflexivity.
  - destruct (filter_Boolean l2) as [| y b] eqn:E2; cbn [negb].
    + now rewrite app_nil_r.
    + apply join_app; discriminate.
Qed.

End ClassNames.

(* ===================================================================== *)
(** ** The post feed and the notifications list                           *)
(* ===================================================================== *)

Section OtherLoads.

(** X19.  What the post feed shows once its load has settled while mounted:
    after a success the posts found under [items], else under [posts], else
    under [data], or the empty notice, whatever was shown before; after a
    failure the error card, whose text is never empty, over the posts kept
    from before.  A load that settles after unmount leaves the state the
    request was sent in. *)
Theorem FeedClient_load_view (r : Settled FeedClient.Body.t)
        (s : FeedClient.State) :
  FeedClient.content (state_after (FeedClient.load true r) s)
  = match r with
    | Resolved d =>
        match FeedClient.items_of d with
        | [] => FeedClient.NoPosts
        | _ :: _ => FeedClient.Posts (FeedClient.items_of d)
        end
    | Rejected e =>
        FeedClient.ErrorCard (or_string (message e) "No se pudo cargar el feed.")
    end
  /\ (forall e, r = Rejected e ->
        or_string (message e) "No se pudo cargar el feed." <> EmptyString
        /\ FeedClient.posts (state_after (FeedClient.load true r) s)
           = FeedClient.posts s)
  /\ state_after (FeedClient.load false r) s
     = state_after FeedClient.load_start s.
Proof.
  split; [| split].
  - destruct r as [d | e]; unfold FeedClient.content; cbn.
    + reflexivity.
    + now rewrite (or_string_truthy (message e) "No se pudo cargar el feed."
                                    eq_refl).
  - intros e -> . split; [| reflexivity]. intros H.
    pose proof (or_string_truthy (message e) "No se pudo cargar el feed."
                                 eq_refl) as T.
    rewrite H in T. discriminate.
  - destruct r; reflexivity.
Qed.

(** X20.  The notifications list asks for nothing on behalf of a viewer who
    is not signed in: the load sends no request and changes nothing, and the
    view is the sign-in prompt or the resolving notice, never the list.  For
    a signed-in viewer, a load that settles while alive ends on the list
    received (empty when the value is no array) or on the error card, whose
    text is never empty. *)
Theorem NotificationsPage_load_view
        (r : Settled (option (list NotificationsPage.NotificationItem)))
        (alive meLoading : bool) (s : NotificationsPage.State) :
  state_after (NotificationsPage.load false alive r) s = s
  /\ calls_of (NotificationsPage.load false alive r) s = []
  /\ (forall rows, NotificationsPage.render meLoading false s
                   <> NotificationsPage.List rows)
  /\ NotificationsPage.render false true
       (state_after (NotificationsPage.load true true r) s)
     = match r with
       | Resolved value => NotificationsPage.List (nullish value [])
       | Rejected e =>
           NotificationsPage.ErrorCard
             (or_string (message e) "No se pudieron cargar las notificaciones")
       end.
Proof.
  split; [reflexivity |]. split; [reflexivity |]. split.
  - intros rows. unfold NotificationsPage.render.
    destruct meLoading; discriminate.
  - destruct r as [d | e]; unfold NotificationsPage.render; cbn.
    + reflexivity.
    + now rewrite (or_string_truthy
                     (message e) "No se pudieron cargar las notificaciones"
                     eq_refl).
Qed.

End OtherLoads.

(* ===================================================================== *)
(** ** Overlapping loads and likes in flight                              *)
(* ===================================================================== *)

Section Overlaps.
Import ReelsPaged ReelsRun.

#[local] Arguments String.append : simpl never.

(** X21.  When the pages of two later loads arrive one after the other, the
    reels of both are appended in the order of arrival, nothing is
    deduplicated, and the cursor and more-available are those of the page
    that arrived last. *)
Theorem loadMore_pages_accumulate
        (r1 r2 : Settled (Response (option Page.t)))
        (d1 d2 : option Page.t) (s : State) :
  settled_page r1 = inr d1 ->
  settled_page r2 = inr d2 ->
  let s' := state_after (loadMore_resume false r1;; loadMore_resume false r2) s in
  items s' = (items s ++ nextItems_of d1 ++ nextItems_of d2)%list
  /\ cursor s' = nextCursor_of d2
  /\ hasMore s' = nextHasMore_of d2
                  && (0 <? Z.of_nat (List.length (nextItems_of d2))).
Proof.
  intros H1 H2. unfold state_after, run.
  rewrite (bind_inr _ _ _ _ _ (loadMore_resume_ok false r1 d1 _ H1)).
  rewrite (loadMore_resume_ok false r2 d2 _ H2). cbn.
  now rewrite <- app_assoc.
Qed.

Lemma loadMore_pages_accumulate_witness :
  settled_page
    (Resolved (Sample.response true 200 EmptyString
                 (Sample.page [Sample.reel "b" None None] (Some "def") None)))
  = inr (Sample.page [Sample.reel "b" None None] (Some "def") None)
  /\ items (state_after
              (loadMore_resume false
                 (Resolved (Sample.response true 200 EmptyString
                    (Sample.page [Sample.reel "b" None None] (Some "def") None)));;
               loadMore_resume false
                 (Resolved (Sample.response true 200 EmptyString
                    (Sample.page [Sample.reel "b" None None] (Some "def") None))))
              (Sample.loaded [Sample.reel "a" None None]))
     = [Sample.reel "a" None None; Sample.reel "b" None None;
        Sample.reel "b" None None].
Proof.
  split; [reflexivity |].
  apply (loadMore_pages_accumulate
           (Resolved (Sample.response true 200 EmptyString
              (Sample.page [Sample.reel "b" None None] (Some "def") None)))
           (Resolved (Sample.response true 200 EmptyString
              (Sample.page [Sample.reel "b" None None] (Some "def") None)))
           (Sample.page [Sample.reel "b" None None] (Some "def") None)
           (Sample.page [Sample.reel "b" None None] (Some "def") None)
           (Sample.loaded [Sample.reel "a" None None]));
    reflexivity.
Defined.

Lemma has_button_In (reelId : string) (s : State) :
  has_button reelId s = true -> In reelId (map id (items s)).
Proof.
  unfold has_button. intros H. apply existsb_exists in H.
  destruct H as (r & Hr & E). apply String.eqb_eq in E. subst reelId.
  now apply in_map.
Qed.

Lemma step_likes (e : Event) (y y' : Sys) (i : string) :
  step e y = Some y' ->
  In i (likes y') -> In i (likes y) \/ In i (ids y).
Proof.
  destruct e as [children top | | n r | me reelId | n r]; cbn [step]; intros H.
  - destruct (_ && _); [| discriminate]. injection H as <-. cbn. auto.
  - destruct (retry_shown _); [| discriminate]. injection H as <-. cbn. auto.
  - destruct (nth_error _ _); [| discriminate]. injection H as <-. cbn. auto.
  - destruct (feed_shown (comp y)) eqn:F; cbn [andb]; [| discriminate].
    destruct (has_button reelId (comp y)) eqn:B; [| discriminate].
    injection H as <-. cbn [likes]. intros Hin.
    apply in_app_or in Hin. destruct Hin as [Hin | Hin]; [now left | right].
    apply in_map_iff in Hin. destruct Hin as (c & <- & _).
    now apply has_button_In.
  - destruct (nth_error _ _); [| discriminate]. injection H as <-. cbn [likes].
    intros Hin. left. now apply In_remove_at in Hin.
Qed.

Lemma steps_likes (events : list Event) (y y' : Sys) :
  Inv y ->
  (forall i, In i (likes y) -> In i (ids y)) ->
  steps events y = Some y' ->
  forall i, In i (likes y') -> In i (ids y').
Proof.
  revert y. induction events as [| e rest IH]; intros y Hy Hl H; cbn in H.
  - now injection H as <-.
  - destruct (step e y) as [y1 |] eqn:E; [| discriminate].
    apply (IH y1 (step_inv e y y1 Hy E)); [| exact H].
    intros i Hin. destruct (step_ids e y y1 Hy E) as [tail ->].
    apply in_or_app. left.
    destruct (step_likes e y y1 i E Hin) as [G | G]; auto.
Qed.

(** X22.  Through any run from mount, the reel of every like in flight is
    still loaded: when the request of a like settles, the rollback finds its
    reel. *)
Theorem likes_in_flight_are_loaded (events : list Event) (y : Sys) :
  steps events mounted = Some y ->
  forall reelId, In reelId (likes y) -> In reelId (ids y).
Proof.
  intros H. apply (steps_likes events mounted y mounted_inv); [| exact H].
  intros i [].
Qed.

Lemma likes_in_flight_are_loaded_witness :
  exists y,
    steps (firstn 5 Sample.sample_run) mounted = Some y
    /\ In "a" (likes y) /\ In "a" (ids y).
Proof.
  eexists. split; [vm_compute; reflexivity |].
  split; [now left |].
  eapply (likes_in_flight_are_loaded (firstn 5 Sample.sample_run));
    [vm_compute; reflexivity | now left].
Defined.

End Overlaps.

(* ===================================================================== *)
(** ** Results that come too late, and a line that never shows            *)
(* ===================================================================== *)

Section Late.

(** X23.  In the simple reels view, the post feed and the notifications
    list, a request that settles after teardown, with whatever outcome,
    calls no setter and leaves every state cell as it was. *)
Theorem teardown_drops_results
        (r1 : Settled (option (list ReelsClient.Reel)))
        (r2 : Settled FeedClient.Body.t)
        (r3 : Settled (option (list NotificationsPage.NotificationItem)))
        (s1 : ReelsClient.State) (s2 : FeedClient.State)
        (s3 : NotificationsPage.State) :
  (state_after (ReelsClient.load_resume false r1) s1 = s1
   /\ calls_of (ReelsClient.load_resume false r1) s1 = [])
  /\ (state_after (FeedClient.load_resume false r2) s2 = s2
      /\ calls_of (FeedClient.load_resume false r2) s2 = [])
  /\ (state_after (NotificationsPage.load_resume false r3) s3 = s3
      /\ calls_of (NotificationsPage.load_resume false r3) s3 = []).
Proof.
  unfold state_after, calls_of, run.
  rewrite ReelsClient_load_suppressed, FeedClient_load_suppressed,
    NotificationsPage_load_suppressed.
  cbn. auto.
Qed.

(** X24.  Through any run from mount, whenever the feed is rendered its
    loading line ("Cargando más…") is off: the line is tied to the loading
    flag, which only an initial load raises, and an initial load is in
    flight only while the loading screen is shown instead of the feed. *)
Theorem loading_more_line_never_shown
        (events : list ReelsRun.Event) (y : ReelsRun.Sys)
        (rows : list ReelsPaged.Reel) (loadingMore noMore : bool) :
  ReelsRun.steps events ReelsRun.mounted = Some y ->
  ReelsPaged.render (ReelsRun.comp y) = ReelsPaged.Feed rows loadingMore noMore ->
  loadingMore = false.
Proof.
  intros H Hr.
  destruct (steps_inv events _ y mounted_inv H) as (I1 & I2 & _).
  assert (Hl : ReelsPaged.loading (ReelsRun.comp y) = false).
  { destruct (ReelsPaged.loading (ReelsRun.comp y)) eqn:L; [| reflexivity].
    exfalso.
    destruct (in_dec Bool.bool_dec true (ReelsRun.loads y)) as [Hin | Hn].
    - destruct (I1 Hin) as (E & _).
      unfold ReelsPaged.render in Hr. rewrite L, E in Hr. discriminate Hr.
    - discriminate (I2 Hn). }
  unfold ReelsPaged.render in Hr. rewrite Hl in Hr. cbn in Hr.
  destruct (_ && _) in Hr; [discriminate |].
  congruence.
Qed.

Lemma loading_more_line_never_shown_witness :
  exists y rows loadingMore noMore,
    ReelsRun.steps Sample.sample_run ReelsRun.mounted = Some y
    /\ ReelsPaged.render (ReelsRun.comp y)
       = ReelsPaged.Feed rows loadingMore noMore
    /\ loadingMore = false.
Proof.
  do 4 eexists.
  split; [vm_compute; reflexivity |]. split; [vm_compute; reflexivity |].
  eapply (loading_more_line_never_shown Sample.sample_run);
    vm_compute; reflexivity.
Defined.

End Late.
